(** * ChatViewer: the conversation index, the thread loader and the rename
      workflow of [src/ChatViewer.js], as a shallow embedding.

    JavaScript strings are sequences of UTF-16 code units.  They are modelled
    by [string], each [ascii] standing for one code unit below 256; on that
    range [substring], [includes], [toLowerCase] and [trim] are written out
    below.  [new Date(s)] and [JSON.parse] are built-ins of the host: they
    are taken as the two operations of the class [Builtins]. *)

From Stdlib Require Import List String Ascii ZArith Bool Arith Lia Sorted.
Import ListNotations.
Open Scope string_scope.
Set Warnings "-register-all".

(** ** Strings *)

Module JsString.

(** [s.includes(t)]: [t] occurs in [s] as a contiguous run of code units. *)
Fixpoint includes (s t : string) : bool :=
  if String.prefix t s then true
  else match s with
       | EmptyString => false
       | String _ s' => includes s' t
       end.

(** Code units that [toLowerCase] changes below 256: A-Z, and the
    upper-case letters U+00C0..U+00DE except the sign U+00D7.  Beyond that
    range lower-casing depends on the neighbours of a character (a final
    sigma), so nothing below is derived from [toLowerCase] working one unit
    at a time: the statements about the filter use it as a function from
    strings to strings and no more. *)
Definition is_upper (n : nat) : bool :=
  (((65 <=? n) && (n <=? 90)) || ((192 <=? n) && (n <=? 222) && negb (n =? 215)))%nat.

Definition lower_unit (c : ascii) : ascii :=
  let n := nat_of_ascii c in
  if is_upper n then ascii_of_nat (n + 32) else c.

Fixpoint toLowerCase (s : string) : string :=
  match s with
  | EmptyString => EmptyString
  | String c s' => String (lower_unit c) (toLowerCase s')
  end.

(** White space and line terminators below 256: TAB, LF, VT, FF, CR, SP
    and NBSP. *)
Definition is_space (c : ascii) : bool :=
  let n := nat_of_ascii c in
  (((9 <=? n) && (n <=? 13)) || (n =? 32) || (n =? 160))%nat.

Fixpoint trimStart (s : string) : string :=
  match s with
  | EmptyString => EmptyString
  | String c s' => if is_space c then trimStart s' else s
  end.

(** [trimEnd] keeps a character when it is not a space or when something
    is left after it. *)
Fixpoint trimEnd (s : string) : string :=
  match s with
  | EmptyString => EmptyString
  | String c s' =>
      match trimEnd s' with
      | EmptyString => if is_space c then EmptyString else String c EmptyString
      | rest => String c rest
      end
  end.

Definition trim (s : string) : string := trimEnd (trimStart s).

Fixpoint all_units (p : ascii -> bool) (s : string) : bool :=
  match s with
  | EmptyString => true
  | String c s' => p c && all_units p s'
  end.

(** The draft is empty or made of white space only. *)
Definition blank (s : string) : bool := all_units is_space s.

Fixpoint join (sep : string) (l : list string) : string :=
  match l with
  | [] => EmptyString
  | [x] => x
  | x :: rest => x ++ sep ++ join sep rest
  end.

End JsString.

(** ** Values *)

(** The values a row can carry: what the backend client deserialises from
    JSON, plus [undefined], which reading a missing property gives.  A number
    is kept as its canonical decimal rendering; an object lists its
    properties in enumeration order. *)
Inductive JSValue : Type :=
| JUndefined
| JNull
| JBool (b : bool)
| JNum (repr : string)
| JStr (s : string)
| JArr (items : list JSValue)
| JObj (props : list (string * JSValue)).

Inductive JsError : Type :=
| SyntaxError
| TypeError
| BackendError (msg : string).

(** Completion of an evaluation: a value, or a thrown exception. *)
Inductive completion (A : Type) : Type :=
| Normal (a : A)
| Throw (e : JsError).
Arguments Normal {A} a.
Arguments Throw {A} e.

Definition bind {A B} (c : completion A) (k : A -> completion B) : completion B :=
  match c with
  | Normal a => k a
  | Throw e => Throw e
  end.

Notation "x <- c ;; k" := (bind c (fun x => k))
  (at level 61, c at next level, right associativity).

(** [xs.map(f)] for a callback that may throw: the first exception leaves
    the loop. *)
Fixpoint mapM {A B} (f : A -> completion B) (xs : list A) : completion (list B) :=
  match xs with
  | [] => Normal []
  | x :: rest =>
      y <- f x ;;
      ys <- mapM f rest ;;
      Normal (y :: ys)
  end.

(** The host's built-ins.  [Date_value s] is the time value of [new Date(s)]
    in milliseconds, [None] for an invalid date (NaN); [JSON_parse s] is
    [None] when [JSON.parse(s)] throws. *)
Class Builtins : Type := {
  Date_value : string -> option Z;
  JSON_parse : string -> option JSValue
}.

(** [new Date(a) > new Date(b)]: false as soon as one side is NaN. *)
Definition date_gt `{Builtins} (a b : string) : bool :=
  match Date_value a, Date_value b with
  | Some x, Some y => (y <? x)%Z
  | _, _ => false
  end.

(** [a] is not earlier than [b], both being valid dates. *)
Definition date_ge `{Builtins} (a b : string) : bool :=
  match Date_value a, Date_value b with
  | Some x, Some y => (y <=? x)%Z
  | _, _ => false
  end.

(** Timestamps listed most recent first. *)
Definition descending `{Builtins} (stamps : list string) : Prop :=
  StronglySorted (fun a b => date_ge a b = true) stamps.

(** ** Rows, conversations, messages *)

Module Row.
Record t : Type := mk {
  id : JSValue;
  session_id : string;
  created_at : string;
  display_name : option string;   (* [None]: null *)
  message : JSValue
}.
End Row.

Module Conv.
Record t : Type := mk {
  session_id : string;
  created_at : string;
  display_name : string
}.
End Conv.

Module Msg.
Record t : Type := mk {
  id : JSValue;
  type : JSValue;
  content : JSValue;
  timestamp : string
}.
End Msg.

(** ** The insertion-ordered [Map] *)

Module JsMap.
Section WithValue.
Context {V : Type}.

Definition t : Type := list (string * V).

Definition empty : t := [].

Fixpoint get (m : t) (k : string) : option V :=
  match m with
  | [] => None
  | (k', v) :: m' => if (k' =? k)%string then Some v else get m' k
  end.

Definition has (m : t) (k : string) : bool :=
  match get m k with Some _ => true | None => false end.

(** A key already present keeps its place; a new key goes last. *)
Fixpoint set (m : t) (k : string) (v : V) : t :=
  match m with
  | [] => [(k, v)]
  | (k', v') :: m' =>
      if (k' =? k)%string then (k', v) :: m' else (k', v') :: set m' k v
  end.

Definition keys (m : t) : list string := map fst m.
Definition values (m : t) : list V := map snd m.
End WithValue.
Arguments t V : clear implicits.
End JsMap.

(** ** loadConversations: the grouping loop *)

(** [`Conversation ${sessionId.substring(0, 8)}...`] *)
Definition default_name (sessionId : string) : string :=
  "Conversation " ++ substring 0 8 sessionId ++ "...".

(** [name || fallback]: null and the empty string are falsy. *)
Definition or_else (name : option string) (fallback : string) : string :=
  match name with
  | Some s => if (s =? EmptyString)%string then fallback else s
  | None => fallback
  end.

(** The entry stored for a row. *)
Definition entry_of (row : Row.t) : Conv.t :=
  let sessionId := Row.session_id row in
  {| Conv.session_id := sessionId;
     Conv.created_at := Row.created_at row;
     Conv.display_name := or_else (Row.display_name row) (default_name sessionId) |}.

(** The body of [data.forEach(row => ...)]. *)
Definition group_row `{Builtins} (sessionsMap : JsMap.t Conv.t) (row : Row.t)
  : JsMap.t Conv.t :=
  let sessionId := Row.session_id row in
  if negb (JsMap.has sessionsMap sessionId)
     || match JsMap.get sessionsMap sessionId with
        | Some kept => date_gt (Row.created_at row) (Conv.created_at kept)
        | None => false
        end
  then JsMap.set sessionsMap sessionId (entry_of row)
  else sessionsMap.

Definition group_rows `{Builtins} (data : list Row.t) : JsMap.t Conv.t :=
  fold_left group_row data JsMap.empty.

(** [Array.from(sessionsMap.values())] *)
Definition newConversations `{Builtins} (data : list Row.t) : list Conv.t :=
  JsMap.values (group_rows data).

(** The row kept for a session so far: a row of that session that no row of
    the session seen so far is strictly later than. *)
Definition kept_for `{Builtins} (seen : list Row.t) (k : string) (c : Conv.t) : Prop :=
  exists r, In r seen /\ Row.session_id r = k /\ c = entry_of r /\
            forall r', In r' seen -> Row.session_id r' = k ->
                       date_gt (Row.created_at r') (Row.created_at r) = false.

(** The loop invariant of [group_rows], [seen] being the rows consumed. *)
Record grouped `{Builtins} (seen : list Row.t) (m : JsMap.t Conv.t) : Prop := {
  grouped_nodup : NoDup (JsMap.keys m);
  grouped_keys : forall k, In k (JsMap.keys m) <-> In k (map Row.session_id seen);
  grouped_kept : forall k c, JsMap.get m k = Some c -> kept_for seen k c
}.

(** The reading of the index's naming rule under which any stored name of
    the session is enough: the entry shows a stored name as soon as one row
    of its session carries a non-empty one, and the synthesized label
    otherwise. *)
Definition any_stored_name_shown `{Builtins} : Prop :=
  forall (data : list Row.t) (c : Conv.t),
    In c (newConversations data) ->
    ((exists r n, In r data /\ Row.session_id r = Conv.session_id c /\
                  Row.display_name r = Some n /\ n <> EmptyString) ->
     exists r n, In r data /\ Row.session_id r = Conv.session_id c /\
                 Row.display_name r = Some n /\ n <> EmptyString /\
                 Conv.display_name c = n)
    /\
    ((forall r, In r data -> Row.session_id r = Conv.session_id c ->
                Row.display_name r = None \/ Row.display_name r = Some EmptyString) ->
     Conv.display_name c = default_name (Conv.session_id c)).

(** ** JSON.stringify on the value domain *)

Module Json.
Import JsString.

Definition dquote : string := String (ascii_of_nat 34) EmptyString.

Definition hex_digit (n : nat) : string :=
  substring n 1 "0123456789abcdef".

(** QuoteJSONString, one code unit at a time. *)
Definition quote_unit (c : ascii) : string :=
  let n := nat_of_ascii c in
  if (n =? 8)%nat then "\b"
  else if (n =? 9)%nat then "\t"
  else if (n =? 10)%nat then "\n"
  else if (n =? 12)%nat then "\f"
  else if (n =? 13)%nat then "\r"
  else if (n =? 34)%nat then "\" ++ dquote
  else if (n =? 92)%nat then "\\"
  else if (n <? 32)%nat then "\u00" ++ hex_digit (n / 16) ++ hex_digit (n mod 16)
  else String c EmptyString.

Fixpoint quote_units (s : string) : string :=
  match s with
  | EmptyString => EmptyString
  | String c s' => quote_unit c ++ quote_units s'
  end.

Definition quote (s : string) : string := dquote ++ quote_units s ++ dquote.

(** [None] is the [undefined] result: such a property is left out of an
    object and printed as null inside an array. *)
Fixpoint serialize (v : JSValue) : option string :=
  match v with
  | JUndefined => None
  | JNull => Some "null"
  | JBool true => Some "true"
  | JBool false => Some "false"
  | JNum repr => Some repr
  | JStr s => Some (quote s)
  | JArr items =>
      Some ("[" ++ join ","
              (map (fun x => match serialize x with
                             | Some t => t
                             | None => "null"
                             end) items) ++ "]")
  | JObj props =>
      Some ("{" ++ join ","
              (flat_map (fun kv => match serialize (snd kv) with
                                   | Some t => [quote (fst kv) ++ ":" ++ t]
                                   | None => []
                                   end) props) ++ "}")
  end.

Definition of_message (m : Msg.t) : string :=
  match serialize (JObj [("id", Msg.id m); ("type", Msg.type m);
                         ("content", Msg.content m);
                         ("timestamp", JStr (Msg.timestamp m))]) with
  | Some t => t
  | None => "null"
  end.

(** [JSON.stringify(messages)] for an array of message objects. *)
Definition stringify (ms : list Msg.t) : string :=
  "[" ++ join "," (map of_message ms) ++ "]".
End Json.

(** ** Component state *)

(** An array held in React state is an object: [oid] is its identity,
    [elems] its contents. *)
Record MsgArray : Type := mkArray {
  oid : nat;
  elems : list Msg.t
}.

Record State : Type := mkState {
  conversations : list Conv.t;
  selectedConversation : option Conv.t;
  messages : MsgArray;
  loading : bool;
  searchTerm : string;
  editingSession : option string;
  newSessionName : string
}.

(** [console.error] calls, by call site. *)
Inductive LogEntry : Type :=
| LoadConversationsFailed (e : JsError)
| LoadMessagesFailed (e : JsError)
| UpdateNameFailed (e : JsError).

(** The one [alert] of the component: the rename could not be saved. *)
Inductive Notice : Type :=
| SaveFailed.

(** The component with what it has done to its surroundings. *)
Record World : Type := mkWorld {
  ui : State;
  next_oid : nat;                              (* next fresh array identity *)
  console : list LogEntry;
  alerts : list Notice;
  updates : list (option string * string);     (* display_name updates sent *)
  pending : list string                        (* thread fetches in flight *)
}.

Definition initial_state : State :=
  {| conversations := []; selectedConversation := None;
     messages := mkArray 0 []; loading := true; searchTerm := EmptyString;
     editingSession := None; newSessionName := EmptyString |}.

Definition initial_world : World :=
  {| ui := initial_state; next_oid := 1; console := []; alerts := [];
     updates := []; pending := [] |}.

Definition with_ui (f : State -> State) (w : World) : World :=
  {| ui := f (ui w); next_oid := next_oid w; console := console w;
     alerts := alerts w; updates := updates w; pending := pending w |}.

Definition log_error (entry : LogEntry) (w : World) : World :=
  {| ui := ui w; next_oid := next_oid w; console := console w ++ [entry];
     alerts := alerts w; updates := updates w; pending := pending w |}.

Definition alert (n : Notice) (w : World) : World :=
  {| ui := ui w; next_oid := next_oid w; console := console w;
     alerts := alerts w ++ [n]; updates := updates w; pending := pending w |}.

Definition setConversations (f : list Conv.t -> list Conv.t) (st : State) : State :=
  {| conversations := f (conversations st);
     selectedConversation := selectedConversation st; messages := messages st;
     loading := loading st; searchTerm := searchTerm st;
     editingSession := editingSession st; newSessionName := newSessionName st |}.

Definition setSelectedConversation (f : option Conv.t -> option Conv.t) (st : State)
  : State :=
  {| conversations := conversations st;
     selectedConversation := f (selectedConversation st); messages := messages st;
     loading := loading st; searchTerm := searchTerm st;
     editingSession := editingSession st; newSessionName := newSessionName st |}.

Definition setMessages (f : MsgArray -> MsgArray) (st : State) : State :=
  {| conversations := conversations st;
     selectedConversation := selectedConversation st; messages := f (messages st);
     loading := loading st; searchTerm := searchTerm st;
     editingSession := editingSession st; newSessionName := newSessionName st |}.

Definition setLoading (b : bool) (st : State) : State :=
  {| conversations := conversations st;
     selectedConversation := selectedConversation st; messages := messages st;
     loading := b; searchTerm := searchTerm st;
     editingSession := editingSession st; newSessionName := newSessionName st |}.

Definition setEditingSession (e : option string) (st : State) : State :=
  {| conversations := conversations st;
     selectedConversation := selectedConversation st; messages := messages st;
     loading := loading st; searchTerm := searchTerm st;
     editingSession := e; newSessionName := newSessionName st |}.

Definition setNewSessionName (n : string) (st : State) : State :=
  {| conversations := conversations st;
     selectedConversation := selectedConversation st; messages := messages st;
     loading := loading st; searchTerm := searchTerm st;
     editingSession := editingSession st; newSessionName := n |}.

(** What a backend call resolves to: [{ data, error }]. *)
Inductive Response (A : Type) : Type :=
| Failed (error : string)
| Data (data : A).
Arguments Failed {A} error.
Arguments Data {A} data.

(** ** loadConversations *)

Definition loadConversations `{Builtins} (resp : Response (list Row.t)) (w : World)
  : World :=
  match resp with
  | Failed error =>
      with_ui (setLoading false)
        (log_error (LoadConversationsFailed (BackendError error)) w)
  | Data data =>
      with_ui (fun st => setLoading false
                           (setConversations (fun _ => newConversations data) st)) w
  end.

(** ** filteredConversations *)

Definition matches_search (searchTerm : string) (conv : Conv.t) : bool :=
  JsString.includes (JsString.toLowerCase (Conv.display_name conv))
                    (JsString.toLowerCase searchTerm)
  || JsString.includes (JsString.toLowerCase (Conv.session_id conv))
                       (JsString.toLowerCase searchTerm).

Definition filteredConversations (st : State) : list Conv.t :=
  filter (matches_search (searchTerm st)) (conversations st).

(** [t] occurs in [s] once both are put in lower case. *)
Definition occurs_ignoring_case (t s : string) : Prop :=
  exists before after : string,
    JsString.toLowerCase s = (before ++ JsString.toLowerCase t ++ after)%string.

(** The search box: [onChange={(e) => setSearchTerm(e.target.value)}]. *)
Definition setSearchTerm (term : string) (st : State) : State :=
  {| conversations := conversations st;
     selectedConversation := selectedConversation st; messages := messages st;
     loading := loading st; searchTerm := term;
     editingSession := editingSession st; newSessionName := newSessionName st |}.

(** ** loadMessages *)

Definition unparsable : JSValue :=
  JObj [("type", JStr "unknown"); ("content", JStr "Message non parsable")].

(** The inner try/catch: a string payload goes through [JSON.parse], whose
    exception is replaced by the placeholder; any other payload is taken as
    it is. *)
Definition parsedMessage `{Builtins} (row : Row.t) : JSValue :=
  match Row.message row with
  | JStr text =>
      match JSON_parse text with
      | Some v => v
      | None => unparsable
      end
  | v => v
  end.

Fixpoint own_property (props : list (string * JSValue)) (name : string)
  : JSValue :=
  match props with
  | [] => JUndefined
  | (k, v) :: rest => if (k =? name)%string then v else own_property rest name
  end.

(** [v.name] for the two names the loader reads, [type] and [content]:
    neither is a property of a primitive or of an array, and reading a
    property of null or undefined throws. *)
Definition get_property (v : JSValue) (name : string) : completion JSValue :=
  match v with
  | JUndefined | JNull => Throw TypeError
  | JObj props => Normal (own_property props name)
  | JBool _ | JNum _ | JStr _ | JArr _ => Normal JUndefined
  end.

(** The callback of [data.map]. *)
Definition message_of_row `{Builtins} (row : Row.t) : completion Msg.t :=
  let parsed := parsedMessage row in
  ty <- get_property parsed "type" ;;
  ct <- get_property parsed "content" ;;
  Normal {| Msg.id := Row.id row; Msg.type := ty; Msg.content := ct;
            Msg.timestamp := Row.created_at row |}.

Definition parsedMessages `{Builtins} (data : list Row.t) : completion (list Msg.t) :=
  mapM message_of_row data.

(** The updater passed to [setMessages]. *)
Definition keep_or_replace (parsed prevMessages : MsgArray) : MsgArray :=
  let newMessagesString := Json.stringify (elems parsed) in
  let prevMessagesString := Json.stringify (elems prevMessages) in
  if negb (newMessagesString =? prevMessagesString)%string
  then parsed
  else prevMessages.

Definition fresh_array (w : World) : World :=
  {| ui := ui w; next_oid := S (next_oid w); console := console w;
     alerts := alerts w; updates := updates w; pending := pending w |}.

(** [loadMessages] from the point where the fetch has resolved. *)
Definition loadMessages_resolved `{Builtins} (resp : Response (list Row.t))
  (w : World) : World :=
  match resp with
  | Failed error => log_error (LoadMessagesFailed (BackendError error)) w
  | Data data =>
      match parsedMessages data with
      | Throw e => log_error (LoadMessagesFailed e) w
      | Normal ms =>
          let parsed := mkArray (next_oid w) ms in
          with_ui (setMessages (keep_or_replace parsed)) (fresh_array w)
      end
  end.

(** [loadMessages] up to its [await]: the fetch for [sessionId] is sent. *)
Definition loadMessages_sent (sessionId : string) (w : World) : World :=
  {| ui := ui w; next_oid := next_oid w; console := console w;
     alerts := alerts w; updates := updates w;
     pending := pending w ++ [sessionId] |}.

Fixpoint remove_first (sessionId : string) (l : list string) : option (list string) :=
  match l with
  | [] => None
  | x :: rest =>
      if (x =? sessionId)%string then Some rest
      else match remove_first sessionId rest with
           | Some rest' => Some (x :: rest')
           | None => None
           end
  end.

Definition handleConversationClick (conversation : Conv.t) (w : World) : World :=
  loadMessages_sent (Conv.session_id conversation)
    (with_ui (setSelectedConversation (fun _ => Some conversation)) w).

(** What happens to the thread.  The interval of the polling effect belongs
    to the current selection (the effect's cleanup clears the one before),
    so a tick fetches for whatever is selected.  A fetch in flight resolves
    at any later time, with rows of the session it was sent for. *)
Inductive Event : Type :=
| Click (conversation : Conv.t)
| Tick
| Resolve (sessionId : string) (resp : Response (list Row.t)).

Definition rows_of_session (sessionId : string) (resp : Response (list Row.t)) : bool :=
  match resp with
  | Failed _ => true
  | Data data => forallb (fun r => (Row.session_id r =? sessionId)%string) data
  end.

(** [None]: the event cannot happen in [w]. *)
Definition step `{Builtins} (w : World) (ev : Event) : option World :=
  match ev with
  | Click conversation => Some (handleConversationClick conversation w)
  | Tick =>
      match selectedConversation (ui w) with
      | Some c => Some (loadMessages_sent (Conv.session_id c) w)
      | None => None
      end
  | Resolve sessionId resp =>
      if rows_of_session sessionId resp then
        match remove_first sessionId (pending w) with
        | Some rest =>
            Some (loadMessages_resolved resp
                    {| ui := ui w; next_oid := next_oid w; console := console w;
                       alerts := alerts w; updates := updates w; pending := rest |})
        | None => None
        end
      else None
  end.

Fixpoint run `{Builtins} (w : World) (evs : list Event) : option World :=
  match evs with
  | [] => Some w
  | ev :: rest =>
      match step w ev with
      | Some w' => run w' rest
      | None => None
      end
  end.

(** ** The rename workflow *)

Definition handleRenameStart (conversation : Conv.t) (st : State) : State :=
  setNewSessionName (Conv.display_name conversation)
    (setEditingSession (Some (Conv.session_id conversation)) st).

Definition handleRenameCancel (st : State) : State :=
  setNewSessionName EmptyString (setEditingSession None st).

(** [conv.session_id === editingSession], where [editingSession] may be
    null. *)
Definition is_session (editing : option string) (sessionId : string) : bool :=
  match editing with
  | Some e => (sessionId =? e)%string
  | None => false
  end.

Definition rename_entry (editing : option string) (name : string) (conv : Conv.t)
  : Conv.t :=
  if is_session editing (Conv.session_id conv)
  then {| Conv.session_id := Conv.session_id conv;
          Conv.created_at := Conv.created_at conv;
          Conv.display_name := name |}
  else conv.

(** [updateDisplayNameInDatabase] once the update has resolved: an error is
    logged and gives [false]. *)
Definition updateDisplayNameInDatabase (resp : Response unit) (w : World)
  : World * bool :=
  match resp with
  | Failed error => (log_error (UpdateNameFailed (BackendError error)) w, false)
  | Data _ => (w, true)
  end.

(** What the handler reads from the render it was created in. *)
Record RenameClosure : Type := mkClosure {
  cl_editingSession : option string;
  cl_newSessionName : string;
  cl_selectedConversation : option Conv.t
}.

(** [handleRenameSubmit] up to its [await]: a blank draft ends the edit at
    once; otherwise the update is sent and the handler waits. *)
Definition handleRenameSubmit_sent (w : World) : World * option RenameClosure :=
  let st := ui w in
  if (JsString.trim (newSessionName st) =? EmptyString)%string
  then (with_ui (setEditingSession None) w, None)
  else
    ({| ui := ui w; next_oid := next_oid w; console := console w;
        alerts := alerts w;
        updates := updates w
                   ++ [(editingSession st, JsString.trim (newSessionName st))];
        pending := pending w |},
     Some (mkClosure (editingSession st) (newSessionName st)
                     (selectedConversation st))).

(** [handleRenameSubmit] after the [await]. *)
Definition handleRenameSubmit_resolved (cl : RenameClosure) (resp : Response unit)
  (w : World) : World :=
  let editing := cl_editingSession cl in
  let name := JsString.trim (cl_newSessionName cl) in
  let '(w1, success) := updateDisplayNameInDatabase resp w in
  let w2 :=
    if success then
      let w' := with_ui (setConversations (map (rename_entry editing name))) w1 in
      match cl_selectedConversation cl with
      | Some sel =>
          if is_session editing (Conv.session_id sel)
          then with_ui (setSelectedConversation
                          (option_map (fun prev =>
                             {| Conv.session_id := Conv.session_id prev;
                                Conv.created_at := Conv.created_at prev;
                                Conv.display_name := name |}))) w'
          else w'
      | None => w'
      end
    else alert SaveFailed w1 in
  with_ui (fun st => setNewSessionName EmptyString (setEditingSession None st)) w2.

(** A whole submission, nothing else happening while the update is on its
    way. *)
Definition handleRenameSubmit (resp : Response unit) (w : World) : World :=
  match handleRenameSubmit_sent w with
  | (w', None) => w'
  | (w', Some cl) => handleRenameSubmit_resolved cl resp w'
  end.

(** ** The component as a whole *)

(** Everything that can happen to the component: a poll of the index
    resolves, a thread event, the rename handlers, typing in the draft or in
    the search box. *)
Inductive Action : Type :=
| Polled (resp : Response (list Row.t))
| Thread (ev : Event)
| RenameStarted (conversation : Conv.t)
| DraftTyped (text : string)
| RenameSubmitted (resp : Response unit)
| RenameCancelled
| SearchTyped (term : string).

Definition act `{Builtins} (w : World) (a : Action) : option World :=
  match a with
  | Polled resp => Some (loadConversations resp w)
  | Thread ev => step w ev
  | RenameStarted conversation => Some (with_ui (handleRenameStart conversation) w)
  | DraftTyped text => Some (with_ui (setNewSessionName text) w)
  | RenameSubmitted resp => Some (handleRenameSubmit resp w)
  | RenameCancelled => Some (with_ui handleRenameCancel w)
  | SearchTyped term => Some (with_ui (setSearchTerm term) w)
  end.

Fixpoint perform `{Builtins} (w : World) (actions : list Action) : option World :=
  match actions with
  | [] => Some w
  | a :: rest =>
      match act w a with
      | Some w' => perform w' rest
      | None => None
      end
  end.

(** What the sidebar relies on: the session ids, used as list keys, are
    pairwise distinct, and no conversation has an empty name. *)
Definition sound_index (convs : list Conv.t) : Prop :=
  NoDup (map Conv.session_id convs)
  /\ Forall (fun c => Conv.display_name c <> EmptyString) convs.

(** ** Notions used to describe the code further *)

(** The session ids of a row list, each kept at its first occurrence. *)
Fixpoint first_seen (l : list string) : list string :=
  match l with
  | [] => []
  | x :: rest => x :: filter (fun y => negb (y =? x)%string) (first_seen rest)
  end.

(** The row behind an index entry, with its place in the rows: every row of
    the session before it is strictly earlier, none after it is later. *)
Definition first_latest `{Builtins} (data : list Row.t) (c : Conv.t) : Prop :=
  exists before r after,
    data = (before ++ r :: after)%list
    /\ Row.session_id r = Conv.session_id c /\ c = entry_of r
    /\ (forall r', In r' before -> Row.session_id r' = Conv.session_id c ->
          date_gt (Row.created_at r) (Row.created_at r') = true)
    /\ (forall r', In r' after -> Row.session_id r' = Conv.session_id c ->
          date_gt (Row.created_at r') (Row.created_at r) = false).

(** What [.update({ display_name: newName }).eq('session_id', sessionId)]
    does to the table: the name is written on every row of the session. *)
Definition update_rows (sessionId newName : string) (rows : list Row.t)
  : list Row.t :=
  map (fun r =>
         if (Row.session_id r =? sessionId)%string
         then {| Row.id := Row.id r; Row.session_id := Row.session_id r;
                 Row.created_at := Row.created_at r;
                 Row.display_name := Some newName;
                 Row.message := Row.message r |}
         else r) rows.

(** The sessions the user has opened in a run of events. *)
Fixpoint opened (evs : list Event) : list string :=
  match evs with
  | [] => []
  | Click conversation :: rest => Conv.session_id conversation :: opened rest
  | _ :: rest => opened rest
  end.

(** The sessions in [known] cover the fetches in flight and the
    selection. *)
Definition covered (known : list string) (w : World) : Prop :=
  (forall sid, In sid (pending w) -> In sid known)
  /\ (forall c, selectedConversation (ui w) = Some c -> In (Conv.session_id c) known).

(** A name with no white space at either end. *)
Definition no_outer_space (s : string) : Prop :=
  (forall c rest, s = String c rest -> JsString.is_space c = false)
  /\ (forall front c, s = (front ++ String c EmptyString)%string ->
        JsString.is_space c = false).

(** ** A host fragment for worked examples

    [sample_host] agrees with the built-ins on the strings listed here, the
    only ones the examples below evaluate; every other string is treated as
    invalid. *)

Definition sample_Date_value (s : string) : option Z :=
  if (s =? "2024-01-01T00:00:00Z")%string then Some 1704067200000%Z
  else if (s =? "2024-01-02T00:00:00Z")%string then Some 1704153600000%Z
  else if (s =? "2024-01-03T00:00:00Z")%string then Some 1704240000000%Z
  else None.

Definition sample_JSON_parse (s : string) : option JSValue :=
  if (s =? "null")%string then Some JNull
  else if (s =? "[]")%string then Some (JArr [])
  else if (s =? "{")%string then None
  else None.

Definition sample_host : Builtins :=
  {| Date_value := sample_Date_value; JSON_parse := sample_JSON_parse |}.

Definition T1 : string := "2024-01-01T00:00:00Z".
Definition T2 : string := "2024-01-02T00:00:00Z".
Definition T3 : string := "2024-01-03T00:00:00Z".

Definition text_message (kind body : string) : JSValue :=
  JObj [("type", JStr kind); ("content", JStr body)].

Definition sample_row (n : string) (sessionId stamp : string)
  (name : option string) (payload : JSValue) : Row.t :=
  {| Row.id := JNum n; Row.session_id := sessionId; Row.created_at := stamp;
     Row.display_name := name; Row.message := payload |}.

(** A session renamed to Support whose latest row, written afterwards,
    carries no name; the backend lists the latest row first. *)
Definition renamed_then_continued : list Row.t :=
  [ sample_row "2" "abc12345-6789" T2 None (text_message "ai" "Bonjour");
    sample_row "1" "abc12345-6789" T1 (Some "Support") (text_message "human" "Salut") ].

(** One session whose later row carries the name Support, latest first. *)
Definition named_latest : list Row.t :=
  [ sample_row "2" "abc12345-6789" T2 (Some "Support") (text_message "ai" "Bonjour");
    sample_row "1" "abc12345-6789" T1 None (text_message "human" "Salut") ].

(** Two sessions, most recent row first. *)
Definition two_sessions : list Row.t :=
  [ sample_row "3" "abc12345-6789" T3 (Some "Support") (text_message "ai" "Oui");
    sample_row "2" "def67890-1234" T2 None (text_message "human" "Allo");
    sample_row "1" "abc12345-6789" T1 (Some "Support") (text_message "human" "Salut") ].

(** A batch in which the first payload is not JSON and the second is the
    JSON text null. *)
Definition broken_then_null : list Row.t :=
  [ sample_row "1" "abc12345-6789" T1 None (JStr "{");
    sample_row "2" "abc12345-6789" T2 None (JStr "null") ].

Definition conversation_A : Conv.t := Conv.mk "aaaa1111" T1 "Conversation aaaa1111...".
Definition conversation_B : Conv.t := Conv.mk "bbbb2222" T2 "Conversation bbbb2222...".

Definition rows_A : list Row.t :=
  [ sample_row "1" "aaaa1111" T1 None (text_message "human" "Salut") ].

Definition thread_A : list Msg.t :=
  [ Msg.mk (JNum "1") (JStr "human") (JStr "Salut") T1 ].

(** The user opens A, then B; the fetch for B resolves (B has no row yet),
    and the fetch sent for A resolves after it. *)
Definition late_answer : list Event :=
  [ Click conversation_A; Click conversation_B;
    Resolve "bbbb2222" (Data []); Resolve "aaaa1111" (Data rows_A) ].

(** The thread shown is only ever replaced by the answer to a fetch sent
    for the conversation selected when the answer arrives. *)
Definition only_current_applied `{Builtins} : Prop :=
  forall (evs : list Event) (w w' : World) (sessionId : string)
         (resp : Response (list Row.t)),
    run initial_world evs = Some w ->
    step w (Resolve sessionId resp) = Some w' ->
    messages (ui w') <> messages (ui w) ->
    exists c, selectedConversation (ui w) = Some c /\ Conv.session_id c = sessionId.

(** A failed decoding never costs the batch: whenever [JSON.parse] throws
    on the payload of some row, every row of the batch gets its message. *)
Definition decode_failure_never_aborts `{Builtins} : Prop :=
  forall (data : list Row.t) (row : Row.t) (text : string),
    In row data -> Row.message row = JStr text -> JSON_parse text = None ->
    exists ms, parsedMessages data = Normal ms /\ List.length ms = List.length data.

(** The index of [two_sessions] on screen, its first conversation open and
    being renamed, with a draft padded by spaces. *)
Definition renaming_world : World :=
  {| ui := {| conversations :=
                [ Conv.mk "abc12345-6789" T3 "Support";
                  Conv.mk "def67890-1234" T2 "Conversation def67890..." ];
              selectedConversation := Some (Conv.mk "abc12345-6789" T3 "Support");
              messages := mkArray 0 [];
              loading := false;
              searchTerm := EmptyString;
              editingSession := Some "abc12345-6789";
              newSessionName := "  Ventes " |};
     next_oid := 1; console := []; alerts := []; updates := []; pending := [] |}.

(** The same, the draft wiped down to spaces. *)
Definition blank_draft_world : World :=
  with_ui (setNewSessionName "   ") renaming_world.

(** Three rows of one session, the last two with the same timestamp. *)
Definition tied_rows : list Row.t :=
  [ sample_row "1" "abc12345-6789" T1 None (text_message "human" "Salut");
    sample_row "2" "abc12345-6789" T2 (Some "Premier") (text_message "ai" "Oui");
    sample_row "3" "abc12345-6789" T2 (Some "Second") (text_message "ai" "Non") ].

(** A thread of two rows: a structured payload, then one that is not
    JSON. *)
Definition mixed_rows : list Row.t :=
  [ sample_row "1" "abc12345-6789" T1 None (text_message "human" "Salut");
    sample_row "2" "abc12345-6789" T2 None (JStr "{") ].

(** A session: the index is polled, the first conversation is opened and
    renamed, the search box is used, the index is polled again. *)
Definition a_session : list Action :=
  [ Polled (Data two_sessions);
    Thread (Click (Conv.mk "abc12345-6789" T3 "Support"));
    RenameStarted (Conv.mk "abc12345-6789" T3 "Support");
    DraftTyped " Ventes ";
    RenameSubmitted (Data tt);
    SearchTyped "ven";
    Polled (Failed "timeout") ].

(** The conversations of [renaming_world]. *)
Definition support_conversation : Conv.t := Conv.mk "abc12345-6789" T3 "Support".
Definition other_conversation : Conv.t :=
  Conv.mk "def67890-1234" T2 "Conversation def67890...".

(** The rename of the open conversation is submitted; before the backend
    answers the user clicks the other conversation, which takes the focus
    away from the draft ([onBlur]) and opens it; then the update succeeds. *)
Definition rename_then_click `{Builtins} : option World :=
  match handleRenameSubmit_sent renaming_world with
  | (sent, Some cl) =>
      option_map (handleRenameSubmit_resolved cl (Data tt))
        (perform sent [RenameCancelled; Thread (Click other_conversation)])
  | (_, None) => None
  end.

(** The other conversation is the open one while the first is renamed from
    the list; before the backend answers the user opens the conversation
    being renamed; then the update succeeds. *)
Definition renaming_from_list : World :=
  with_ui (setSelectedConversation (fun _ => Some other_conversation)) renaming_world.

Definition rename_then_open `{Builtins} : option World :=
  match handleRenameSubmit_sent renaming_from_list with
  | (sent, Some cl) =>
      option_map (handleRenameSubmit_resolved cl (Data tt))
        (perform sent [RenameCancelled; Thread (Click support_conversation)])
  | (_, None) => None
  end.

(** A confirmed rename reaches the header: whatever happens while the
    update is on its way, if the session renamed is the one selected when
    the backend confirms, the selected conversation takes the trimmed
    draft as its name. *)
Definition selection_follows_rename `{Builtins} : Prop :=
  forall (w sent during : World) (cl : RenameClosure) (sid : string)
         (actions : list Action) (sel : Conv.t),
    editingSession (ui w) = Some sid ->
    handleRenameSubmit_sent w = (sent, Some cl) ->
    perform sent actions = Some during ->
    selectedConversation (ui during) = Some sel ->
    Conv.session_id sel = sid ->
    selectedConversation (ui (handleRenameSubmit_resolved cl (Data tt) during))
    = Some (Conv.mk (Conv.session_id sel) (Conv.created_at sel)
                    (JsString.trim (newSessionName (ui w)))).

(* ================================================================== *)
(** * Properties *)

Open Scope list_scope.

(** ** The insertion-ordered map *)

Section MapFacts.
Context {V : Type}.
Implicit Types (m : JsMap.t V) (k : string) (v : V).

Lemma has_true_get m k :
  JsMap.has m k = true -> exists v, JsMap.get m k = Some v.
Proof.
  unfold JsMap.has. destruct (JsMap.get m k) as [v|]; [eauto | discriminate].
Qed.

Lemma has_false_get m k : JsMap.has m k = false -> JsMap.get m k = None.
Proof.
  unfold JsMap.has. destruct (JsMap.get m k); [discriminate | reflexivity].
Qed.

Lemma get_in m k v : JsMap.get m k = Some v -> In (k, v) m.
Proof.
  induction m as [|[k' v'] m IH]; simpl; [discriminate|].
  destruct (String.eqb_spec k' k) as [->|Hne].
  - intros [= ->]. now left.
  - intros Hg. right. now apply IH.
Qed.

Lemma get_none_keys m k : JsMap.get m k = None <-> ~ In k (JsMap.keys m).
Proof.
  induction m as [|[k' v'] m IH]; simpl.
  - split; [intros _ [] | reflexivity].
  - destruct (String.eqb_spec k' k) as [->|Hne].
    + split; [discriminate | intros Hn; exfalso; apply Hn; now left].
    + rewrite IH. split.
      * intros Hn [Heq|Hin]; [now apply Hne | now apply Hn].
      * intros Hn Hin. apply Hn. now right.
Qed.

Lemma in_get m k v : NoDup (JsMap.keys m) -> In (k, v) m -> JsMap.get m k = Some v.
Proof.
  induction m as [|[k' v'] m IH]; simpl; [intros _ []|].
  intros Hnd [Heq|Hin].
  - injection Heq as -> ->. now rewrite String.eqb_refl.
  - inversion Hnd as [|? ? Hnotin Hnd']; subst.
    destruct (String.eqb_spec k' k) as [->|Hne].
    + exfalso. apply Hnotin. change k with (fst (k, v)). now apply in_map.
    + now apply IH.
Qed.

Lemma set_absent m k v : JsMap.get m k = None -> JsMap.set m k v = m ++ [(k, v)].
Proof.
  induction m as [|[k' v'] m IH]; simpl; [reflexivity|].
  destruct (String.eqb_spec k' k) as [->|Hne]; [discriminate|].
  intros Hg. now rewrite IH.
Qed.

Lemma keys_set_present m k v v0 :
  JsMap.get m k = Some v0 -> JsMap.keys (JsMap.set m k v) = JsMap.keys m.
Proof.
  induction m as [|[k' v'] m IH]; simpl; [discriminate|].
  destruct (String.eqb_spec k' k) as [->|Hne]; [reflexivity|].
  intros Hg. simpl. f_equal. now apply IH.
Qed.

Lemma get_set m k v k' :
  JsMap.get (JsMap.set m k v) k' =
  if (k =? k')%string then Some v else JsMap.get m k'.
Proof.
  induction m as [|[k0 v0] m IH]; simpl.
  - destruct (String.eqb_spec k k'); reflexivity.
  - destruct (String.eqb_spec k0 k) as [->|Hne]; simpl.
    + destruct (String.eqb_spec k k'); reflexivity.
    + destruct (String.eqb_spec k0 k') as [->|Hne'].
      * destruct (String.eqb_spec k k') as [->|]; [now elim Hne | reflexivity].
      * apply IH.
Qed.
End MapFacts.

(** ** The grouping loop *)

Section IndexFacts.
Context `{Builtins}.

Lemma date_gt_irrefl a : date_gt a a = false.
Proof.
  unfold date_gt. destruct (Date_value a); [apply Z.ltb_irrefl | reflexivity].
Qed.

(** Once [b] has displaced [a], nothing that did not beat [a] beats [b]. *)
Lemma date_gt_displaced a b c :
  date_gt b a = true -> date_gt c a = false -> date_gt c b = false.
Proof.
  unfold date_gt.
  destruct (Date_value a), (Date_value b), (Date_value c);
    try discriminate; try reflexivity.
  rewrite Z.ltb_lt, !Z.ltb_ge. lia.
Qed.

Lemma date_ge_not_gt a b : date_ge a b = true -> date_gt b a = false.
Proof.
  unfold date_ge, date_gt.
  destruct (Date_value a), (Date_value b); try discriminate.
  rewrite Z.leb_le, Z.ltb_ge. lia.
Qed.

Lemma kept_for_other seen k c row :
  Row.session_id row <> k -> kept_for seen k c -> kept_for (seen ++ [row]) k c.
Proof.
  intros Hne (r & Hin & Hk & Hc & Hmax).
  exists r. repeat split; auto.
  - apply in_or_app. now left.
  - intros r' Hin' Hk'. apply in_app_or in Hin' as [Hin'|[<-|[]]].
    + now apply Hmax.
    + now elim Hne.
Qed.

Lemma grouped_step seen m row :
  grouped seen m -> grouped (seen ++ [row]) (group_row m row).
Proof.
  intros [Hnd Hkeys Hkept]. unfold group_row.
  set (k := Row.session_id row).
  destruct (JsMap.has m k) eqn:Hhas; simpl.
  - (* the session already has an entry *)
    destruct (has_true_get _ _ Hhas) as [kept Hget]. rewrite Hget.
    destruct (Hkept _ _ Hget) as (r0 & Hin0 & Hk0 & Hc0 & Hmax0).
    assert (Hkeys' : forall k', In k' (JsMap.keys m) <->
                                In k' (map Row.session_id (seen ++ [row]))).
    { intros k'. rewrite Hkeys, map_app, in_app_iff. simpl. split; [tauto|].
      intros [Hin|[<-|[]]]; [assumption|].
      apply Hkeys. apply get_in in Hget.
      change (Row.session_id row) with (fst (k, kept)). now apply in_map. }
    destruct (date_gt (Row.created_at row) (Conv.created_at kept)) eqn:Hgt.
    + (* a strictly later row replaces it, in place *)
      constructor.
      * now rewrite (keys_set_present _ _ _ _ Hget).
      * intros k'. now rewrite (keys_set_present _ _ _ _ Hget).
      * intros k' c. rewrite get_set.
        destruct (String.eqb_spec k k') as [<-|Hne].
        -- intros [= <-]. exists row. repeat split; auto.
           ++ apply in_or_app. right. now left.
           ++ intros r' Hin' Hk'. apply in_app_or in Hin' as [Hin'|[<-|[]]].
              ** apply date_gt_displaced with (a := Row.created_at r0).
                 --- subst kept. exact Hgt.
                 --- now apply Hmax0.
              ** apply date_gt_irrefl.
        -- intros Hg. apply kept_for_other; [exact Hne | now apply Hkept].
    + (* the entry stays *)
      constructor; auto.
      intros k' c Hg.
      destruct (String.eqb_spec k k') as [<-|Hne].
      * rewrite Hget in Hg. injection Hg as <-.
        exists r0. repeat split; auto.
        -- apply in_or_app. now left.
        -- intros r' Hin' Hk'. apply in_app_or in Hin' as [Hin'|[<-|[]]].
           ++ now apply Hmax0.
           ++ subst kept. exact Hgt.
      * apply kept_for_other; [exact Hne | now apply Hkept].
  - (* first row of its session: a new entry, last *)
    pose proof (has_false_get _ _ Hhas) as Hget.
    rewrite (set_absent _ _ _ Hget).
    assert (Hnotin : ~ In k (JsMap.keys m)) by now apply get_none_keys.
    constructor.
    + unfold JsMap.keys. rewrite map_app. simpl.
      apply NoDup_app; repeat split.
      * exact Hnd.
      * constructor; [intros [] | constructor].
      * intros a Ha [<-|[]]. now apply Hnotin.
    + intros k'. unfold JsMap.keys. rewrite !map_app, !in_app_iff. simpl.
      fold (JsMap.keys m). rewrite Hkeys. reflexivity.
    + intros k' c Hg.
      rewrite <- (set_absent _ _ _ Hget), get_set in Hg.
      destruct (String.eqb_spec k k') as [<-|Hne].
      * injection Hg as <-. exists row. repeat split; auto.
        -- apply in_or_app. right. now left.
        -- intros r' Hin' Hk'. apply in_app_or in Hin' as [Hin'|[<-|[]]].
           ++ exfalso. apply Hnotin, Hkeys. rewrite <- Hk'. now apply in_map.
           ++ apply date_gt_irrefl.
      * apply kept_for_other; [exact Hne | now apply Hkept].
Qed.

Lemma grouped_empty : grouped [] JsMap.empty.
Proof.
  constructor; simpl.
  - constructor.
  - reflexivity.
  - discriminate.
Qed.

Lemma grouped_fold rest : forall seen m,
  grouped seen m -> grouped (seen ++ rest) (fold_left group_row rest m).
Proof.
  induction rest as [|row rest IH]; intros seen m Hg; simpl.
  - now rewrite app_nil_r.
  - replace (seen ++ row :: rest) with ((seen ++ [row]) ++ rest)
      by now rewrite <- app_assoc.
    apply IH. now apply grouped_step.
Qed.

Lemma group_rows_grouped data : grouped data (group_rows data).
Proof. exact (grouped_fold data [] JsMap.empty grouped_empty). Qed.

(** Every conversation of the index is the entry of the row kept for its
    own session. *)
Lemma index_entry_kept data c :
  In c (newConversations data) -> kept_for data (Conv.session_id c) c.
Proof.
  intros Hin. destruct (group_rows_grouped data) as [Hnd _ Hkept].
  unfold newConversations, JsMap.values in Hin.
  apply in_map_iff in Hin as ([k c'] & Heq & Hin). simpl in Heq. subst c'.
  pose proof (Hkept _ _ (in_get _ _ _ Hnd Hin)) as Hk.
  destruct Hk as (r & Hr & Hs & Hc & Hmax).
  assert (Conv.session_id c = k) as -> by (subst c; exact Hs).
  exists r. auto.
Qed.

Lemma index_sessions_keys data :
  map Conv.session_id (newConversations data) = JsMap.keys (group_rows data).
Proof.
  destruct (group_rows_grouped data) as [Hnd _ Hkept].
  unfold newConversations, JsMap.values, JsMap.keys. rewrite map_map.
  apply map_ext_in. intros [k c] Hin. simpl.
  destruct (Hkept _ _ (in_get _ _ _ Hnd Hin)) as (r & _ & Hs & -> & _).
  exact Hs.
Qed.

Lemma default_name_nonempty sessionId : default_name sessionId <> EmptyString.
Proof. unfold default_name. simpl. discriminate. Qed.

Lemma or_else_nonempty name fallback :
  fallback <> EmptyString -> or_else name fallback <> EmptyString.
Proof.
  intros Hf. unfold or_else. destruct name as [s|]; [|exact Hf].
  destruct (String.eqb_spec s EmptyString); assumption.
Qed.

(** *** Rows delivered most recent first *)

(** With such rows the map is only ever extended: it lists the entries of
    a run [sub] of rows already seen, itself most recent first. *)
Lemma sorted_snoc (R : Row.t -> Row.t -> Prop) sub row :
  StronglySorted R sub -> (forall x, In x sub -> R x row) ->
  StronglySorted R (sub ++ [row]).
Proof.
  induction 1 as [|a l Hs IH Hall]; intros Hrow; simpl.
  - constructor; constructor.
  - constructor.
    + apply IH. intros x Hx. apply Hrow. now right.
    + apply Forall_app. split; [exact Hall|].
      constructor; [apply Hrow; now left | constructor].
Qed.

Lemma sorted_before (R : Row.t -> Row.t -> Prop) l a l' :
  StronglySorted R (l ++ a :: l') -> forall x, In x l -> R x a.
Proof.
  induction l as [|y l IH]; simpl; intros Hs x Hx; [destruct Hx|].
  apply StronglySorted_inv in Hs as [Hs Hf].
  destruct Hx as [<-|Hx].
  - rewrite Forall_forall in Hf. apply Hf, in_or_app. right. now left.
  - now apply IH.
Qed.

Lemma get_of_rows sub k c :
  JsMap.get (map (fun r => (Row.session_id r, entry_of r)) sub) k = Some c ->
  exists r, In r sub /\ c = entry_of r.
Proof.
  induction sub as [|r sub IH]; simpl; [discriminate|].
  destruct (String.eqb_spec (Row.session_id r) k).
  - intros [= <-]. exists r. auto.
  - intros Hg. destruct (IH Hg) as (r' & Hin & Hc). exists r'. auto.
Qed.

Lemma extended_fold rest : forall seen sub,
  StronglySorted (fun a b => date_ge (Row.created_at a) (Row.created_at b) = true)
                 (seen ++ rest) ->
  StronglySorted (fun a b => date_ge (Row.created_at a) (Row.created_at b) = true) sub ->
  (forall x, In x sub -> In x seen) ->
  exists sub',
    fold_left group_row rest (map (fun r => (Row.session_id r, entry_of r)) sub)
    = map (fun r => (Row.session_id r, entry_of r)) sub' /\
    StronglySorted (fun a b => date_ge (Row.created_at a) (Row.created_at b) = true) sub'.
Proof.
  induction rest as [|row rest IH]; intros seen sub Hall Hsub Hincl; simpl.
  - exists sub. auto.
  - assert (Hbefore : forall x, In x seen ->
              date_ge (Row.created_at x) (Row.created_at row) = true).
    { intros x Hx. exact (sorted_before _ _ _ _ Hall x Hx). }
    replace (seen ++ row :: rest) with ((seen ++ [row]) ++ rest) in Hall
      by now rewrite <- app_assoc.
    unfold group_row at 2.
    destruct (JsMap.has _ (Row.session_id row)) eqn:Hhas; simpl.
    + destruct (has_true_get _ _ Hhas) as [kept Hget]. rewrite Hget.
      destruct (get_of_rows _ _ _ Hget) as (r0 & Hin0 & ->).
      simpl. rewrite (date_ge_not_gt _ _ (Hbefore _ (Hincl _ Hin0))).
      apply (IH (seen ++ [row]) sub Hall Hsub).
      intros x Hx. apply in_or_app. left. now apply Hincl.
    + rewrite (set_absent _ _ _ (has_false_get _ _ Hhas)).
      change [(Row.session_id row, entry_of row)]
        with (map (fun r => (Row.session_id r, entry_of r)) [row]).
      rewrite <- map_app.
      apply (IH (seen ++ [row]) (sub ++ [row]) Hall).
      * apply sorted_snoc; [exact Hsub|].
        intros x Hx. apply Hbefore. now apply Hincl.
      * intros x Hx. apply in_app_or in Hx as [Hx|Hx]; apply in_or_app.
        -- left. now apply Hincl.
        -- now right.
Qed.
End IndexFacts.

(** ** The conversation index *)

Section IndexClaims.
Context `{Builtins}.

(** C1.  For rows whose [created_at] are valid timestamps, the index holds
    exactly one conversation per session id occurring in the rows (no
    session id twice, and the same session ids as the rows), and each
    conversation carries the [created_at] of a row of its session whose
    time value is the greatest among the rows of that session. *)
Theorem index_one_per_session_latest (data : list Row.t) :
  Forall (fun r => Date_value (Row.created_at r) <> None) data ->
  NoDup (map Conv.session_id (newConversations data))
  /\ (forall s, In s (map Conv.session_id (newConversations data))
                <-> In s (map Row.session_id data))
  /\ (forall c, In c (newConversations data) ->
        exists t,
          Date_value (Conv.created_at c) = Some t
          /\ (exists r, In r data /\ Row.session_id r = Conv.session_id c
                        /\ Row.created_at r = Conv.created_at c)
          /\ (forall r, In r data -> Row.session_id r = Conv.session_id c ->
                exists t', Date_value (Row.created_at r) = Some t' /\ (t' <= t)%Z)).
Proof.
  intros Hvalid. rewrite Forall_forall in Hvalid.
  destruct (group_rows_grouped data) as [Hnd Hkeys _].
  rewrite index_sessions_keys. repeat split.
  - exact Hnd.
  - apply Hkeys.
  - apply Hkeys.
  - intros c Hc.
    destruct (index_entry_kept _ _ Hc) as (r & Hr & Hs & -> & Hmax). simpl in *.
    destruct (Date_value (Row.created_at r)) as [t|] eqn:Ht;
      [|now elim (Hvalid _ Hr)].
    exists t. repeat split.
    + exists r. auto.
    + intros r' Hr' Hs'. specialize (Hmax _ Hr' Hs').
      unfold date_gt in Hmax. rewrite Ht in Hmax.
      destruct (Date_value (Row.created_at r')) as [t'|] eqn:Ht';
        [|now elim (Hvalid _ Hr')].
      exists t'. split; [reflexivity|]. apply Z.ltb_ge in Hmax. lia.
Qed.

(** C2, as amended.  The display name of a conversation is decided by the
    one row kept for its session, a row none of the session's rows is
    strictly later than: it is that row's stored name when this is a
    non-empty string, and otherwise the label made of Conversation, the
    first 8 characters of the session id and three dots.  In particular a
    session none of whose rows carries a non-empty name gets the label. *)
Theorem index_name_of_kept_row (data : list Row.t) (c : Conv.t) :
  In c (newConversations data) ->
  (exists r,
      In r data /\ Row.session_id r = Conv.session_id c
      /\ Row.created_at r = Conv.created_at c
      /\ (forall r', In r' data -> Row.session_id r' = Conv.session_id c ->
            date_gt (Row.created_at r') (Row.created_at r) = false)
      /\ (forall n, Row.display_name r = Some n -> n <> EmptyString ->
            Conv.display_name c = n)
      /\ (Row.display_name r = None \/ Row.display_name r = Some EmptyString ->
            Conv.display_name c
            = ("Conversation " ++ substring 0 8 (Conv.session_id c) ++ "...")%string))
  /\ ((forall r, In r data -> Row.session_id r = Conv.session_id c ->
         Row.display_name r = None \/ Row.display_name r = Some EmptyString) ->
      Conv.display_name c
      = ("Conversation " ++ substring 0 8 (Conv.session_id c) ++ "...")%string).
Proof.
  intros Hc.
  destruct (index_entry_kept _ _ Hc) as (r & Hr & Hs & -> & Hmax). simpl in *.
  assert (Hlabel : Row.display_name r = None \/ Row.display_name r = Some EmptyString ->
            or_else (Row.display_name r) (default_name (Row.session_id r))
            = default_name (Row.session_id r)).
  { intros [-> | ->]; reflexivity. }
  split.
  - exists r. repeat split; auto.
    intros n Hn Hne. rewrite Hn. simpl.
    destruct (String.eqb_spec n EmptyString); [contradiction | reflexivity].
  - intros Hnone. apply Hlabel. now apply Hnone.
Qed.

(** C8.  When the rows come most recent first, so does the index. *)
Theorem index_most_recent_first (data : list Row.t) :
  descending (map Row.created_at data) ->
  descending (map Conv.created_at (newConversations data)).
Proof.
  unfold descending. intros Hsorted.
  assert (Hrows : StronglySorted
            (fun a b => date_ge (Row.created_at a) (Row.created_at b) = true) data).
  { clear -Hsorted. induction data as [|r data IH]; simpl in *; [constructor|].
    apply StronglySorted_inv in Hsorted as [Hs Hf]. constructor; [now apply IH|].
    rewrite Forall_forall in *. intros x Hx. apply Hf. now apply in_map. }
  destruct (extended_fold data [] [] Hrows (SSorted_nil _)) as (sub & Heq & Hsub).
  { intros x []. }
  unfold newConversations, group_rows, JsMap.values, JsMap.empty.
  simpl in Heq. rewrite Heq, !map_map. simpl.
  clear -Hsub. induction Hsub as [|a l Hs IH Hf]; simpl; constructor.
  - exact IH.
  - rewrite Forall_forall in *. intros x Hx.
    apply in_map_iff in Hx as (r & <- & Hr). now apply Hf.
Qed.

(** C10.  Every conversation of the index has a non-empty display name; a
    row whose stored name is null or the empty string is entered under the
    label made of Conversation, the first 8 characters of its session id
    and three dots. *)
Theorem index_names_nonempty (data : list Row.t) :
  (forall c, In c (newConversations data) -> Conv.display_name c <> EmptyString)
  /\ (forall row,
        Row.display_name row = None \/ Row.display_name row = Some EmptyString ->
        Conv.display_name (entry_of row)
        = ("Conversation " ++ substring 0 8 (Row.session_id row) ++ "...")%string).
Proof.
  split.
  - intros c Hc.
    destruct (index_entry_kept _ _ Hc) as (r & _ & _ & -> & _). simpl.
    apply or_else_nonempty, default_name_nonempty.
  - intros row [Hn | Hn]; unfold entry_of; simpl; rewrite Hn; reflexivity.
Qed.
End IndexClaims.

(** A session named on its latest row: one conversation, with the latest
    timestamp and that name, whichever way the rows are listed. *)
Example index_of_named_latest :
  @newConversations sample_host named_latest
  = [ Conv.mk "abc12345-6789" T2 "Support" ]
  /\ @newConversations sample_host (rev named_latest)
     = [ Conv.mk "abc12345-6789" T2 "Support" ].
Proof. split; reflexivity. Qed.

(** The index of [two_sessions]. *)
Example index_of_two_sessions :
  @newConversations sample_host two_sessions
  = [ Conv.mk "abc12345-6789" T3 "Support";
      Conv.mk "def67890-1234" T2 "Conversation def67890..." ].
Proof. reflexivity. Qed.

Lemma index_one_per_session_latest_witness :
  Forall (fun r => sample_Date_value (Row.created_at r) <> None) two_sessions
  /\ NoDup (map Conv.session_id (@newConversations sample_host two_sessions))
  /\ (forall s, In s (map Conv.session_id (@newConversations sample_host two_sessions))
                <-> In s (map Row.session_id two_sessions))
  /\ (forall c, In c (@newConversations sample_host two_sessions) ->
        exists t,
          sample_Date_value (Conv.created_at c) = Some t
          /\ (exists r, In r two_sessions /\ Row.session_id r = Conv.session_id c
                        /\ Row.created_at r = Conv.created_at c)
          /\ (forall r, In r two_sessions -> Row.session_id r = Conv.session_id c ->
                exists t', sample_Date_value (Row.created_at r) = Some t' /\ (t' <= t)%Z)).
Proof.
  assert (Hvalid : Forall (fun r => sample_Date_value (Row.created_at r) <> None)
                          two_sessions)
    by (repeat constructor; simpl; discriminate).
  split; [exact Hvalid|].
  exact (@index_one_per_session_latest sample_host two_sessions Hvalid).
Defined.

Lemma index_name_of_kept_row_witness :
  In (Conv.mk "abc12345-6789" T2 "Conversation abc12345...")
     (@newConversations sample_host renamed_then_continued)
  /\ exists r,
       In r renamed_then_continued /\ Row.session_id r = "abc12345-6789"
       /\ Row.created_at r = T2 /\ Row.display_name r = None.
Proof.
  assert (Hin : In (Conv.mk "abc12345-6789" T2 "Conversation abc12345...")
                   (@newConversations sample_host renamed_then_continued))
    by (left; reflexivity).
  split; [exact Hin|].
  destruct (@index_name_of_kept_row sample_host renamed_then_continued _ Hin)
    as [(r & Hr & Hs & Hc & _ & Hname & _) _].
  exists r. repeat split; try assumption.
  destruct (Row.display_name r) as [n|] eqn:Hn; [|reflexivity].
  destruct Hr as [<-|[<-|[]]]; simpl in *; discriminate.
Defined.

Lemma index_most_recent_first_witness :
  @descending sample_host (map Row.created_at two_sessions)
  /\ @descending sample_host
       (map Conv.created_at (@newConversations sample_host two_sessions)).
Proof.
  assert (Hsorted : @descending sample_host (map Row.created_at two_sessions))
    by (unfold descending; simpl; repeat constructor).
  split; [exact Hsorted|].
  exact (@index_most_recent_first sample_host two_sessions Hsorted).
Defined.

(** C2, as stated, fails: the session was renamed to Support, its latest row
    carries no name, and the index shows the label. *)
Lemma any_stored_name_shown_fails : ~ @any_stored_name_shown sample_host.
Proof.
  intros Hclaim.
  destruct (Hclaim renamed_then_continued
              (Conv.mk "abc12345-6789" T2 "Conversation abc12345...")
              (or_introl eq_refl)) as [Hstored _].
  destruct Hstored as (r & n & Hr & _ & Hn & Hne & Hshown).
  - exists (sample_row "1" "abc12345-6789" T1 (Some "Support")
                       (text_message "human" "Salut")), "Support".
    repeat split; [right; now left | discriminate].
  - simpl in Hshown. subst n.
    destruct Hr as [<-|[<-|[]]]; simpl in Hn; discriminate.
Qed.

(** ** The thread loader *)

Section ThreadFacts.
Context `{Builtins}.

(** A payload on which [JSON.parse] throws gives the placeholder
    message. *)
Lemma message_of_unparsable row text :
  Row.message row = JStr text -> JSON_parse text = None ->
  message_of_row row
  = Normal (Msg.mk (Row.id row) (JStr "unknown") (JStr "Message non parsable")
                   (Row.created_at row)).
Proof.
  intros Hm Hp. unfold message_of_row, parsedMessage. rewrite Hm, Hp. reflexivity.
Qed.

(** The callback throws on exactly one kind of payload: one that is, or
    parses to, null or undefined. *)
Lemma message_of_row_throws row e :
  message_of_row row = Throw e ->
  e = TypeError /\ (parsedMessage row = JNull \/ parsedMessage row = JUndefined).
Proof.
  unfold message_of_row.
  destruct (parsedMessage row); simpl; intros Ht; try discriminate;
    injection Ht as <-; auto.
Qed.

Lemma parsedMessages_throws data e :
  parsedMessages data = Throw e ->
  e = TypeError
  /\ exists row, In row data
                 /\ (parsedMessage row = JNull \/ parsedMessage row = JUndefined).
Proof.
  unfold parsedMessages.
  induction data as [|row data IH]; simpl; [discriminate|].
  destruct (message_of_row row) as [m|e'] eqn:Hrow; simpl.
  - destruct (mapM message_of_row data) as [ms|e'']; simpl; [discriminate|].
    intros [= ->]. destruct (IH eq_refl) as (He & r & Hr & Hnull).
    split; [exact He|]. exists r. auto.
  - intros [= ->]. destruct (message_of_row_throws _ _ Hrow) as [He Hnull].
    split; [exact He|]. exists row. auto.
Qed.

(** Without such a payload every row gets its message. *)
Lemma parsedMessages_normal data :
  (forall row, In row data ->
               parsedMessage row <> JNull /\ parsedMessage row <> JUndefined) ->
  exists ms, parsedMessages data = Normal ms /\ List.length ms = List.length data.
Proof.
  intros Hok. destruct (parsedMessages data) as [ms|e] eqn:Hp.
  - exists ms. split; [reflexivity|].
    revert ms Hp. unfold parsedMessages. clear Hok.
    induction data as [|row data IH]; simpl; intros ms.
    + now intros [= <-].
    + destruct (message_of_row row); simpl; [|discriminate].
      destruct (mapM message_of_row data) as [ms'|]; simpl; [|discriminate].
      intros [= <-]. simpl. f_equal. now apply IH.
  - destruct (parsedMessages_throws _ _ Hp) as (_ & row & Hr & Hnull).
    destruct (Hok _ Hr) as [Hn Hu]. tauto.
Qed.

(** C3.  On [broken_then_null] the first row's decoding fails and is
    replaced by the placeholder, but the second payload parses to null:
    reading its [type] throws outside the inner try, the batch is
    abandoned, and the state is left as it was apart from the logged
    error. *)
Theorem null_payload_aborts_batch (w : World) :
  JSON_parse "{" = None -> JSON_parse "null" = Some JNull ->
  message_of_row (sample_row "1" "abc12345-6789" T1 None (JStr "{"))
  = Normal (Msg.mk (JNum "1") (JStr "unknown") (JStr "Message non parsable") T1)
  /\ parsedMessages broken_then_null = Throw TypeError
  /\ loadMessages_resolved (Data broken_then_null) w
     = log_error (LoadMessagesFailed TypeError) w.
Proof.
  intros Hbad Hnull.
  assert (Hbatch : parsedMessages broken_then_null = Throw TypeError).
  { unfold parsedMessages, broken_then_null, mapM, message_of_row, parsedMessage.
    simpl. rewrite Hbad, Hnull. reflexivity. }
  repeat split.
  - apply message_of_unparsable with (text := "{"); [reflexivity | exact Hbad].
  - exact Hbatch.
  - unfold loadMessages_resolved. now rewrite Hbatch.
Qed.

(** C4.  In [late_answer] the answer to the fetch sent for A arrives once
    B is selected, and it is applied: B is selected, A's thread is
    shown. *)
Theorem late_answer_overwrites :
  exists w,
    run initial_world late_answer = Some w
    /\ selectedConversation (ui w) = Some conversation_B
    /\ elems (messages (ui w)) = thread_A
    /\ pending w = [].
Proof. eexists. repeat split. Qed.

Lemma only_current_applied_fails : ~ only_current_applied.
Proof.
  intros Hclaim.
  destruct (Hclaim [Click conversation_A; Click conversation_B;
                    Resolve "bbbb2222" (Data [])]
                   _ _ "aaaa1111" (Data rows_A) eq_refl eq_refl)
    as (c & Hsel & Hid).
  - simpl. intros Heq. discriminate Heq.
  - simpl in Hsel. injection Hsel as <-. discriminate Hid.
Qed.

(** C5.  The updater hands back the array already displayed whenever the
    fetched messages equal the displayed ones, and puts the fetched array
    in its place only when they differ. *)
Theorem unchanged_thread_kept (parsed prevMessages : MsgArray) :
  (elems parsed = elems prevMessages ->
   keep_or_replace parsed prevMessages = prevMessages)
  /\ (keep_or_replace parsed prevMessages <> prevMessages ->
      elems parsed <> elems prevMessages).
Proof.
  assert (Hkeep : elems parsed = elems prevMessages ->
                  keep_or_replace parsed prevMessages = prevMessages).
  { intros Heq. unfold keep_or_replace. rewrite Heq, String.eqb_refl. reflexivity. }
  split; [exact Hkeep|].
  intros Hrepl Heq. apply Hrepl, Hkeep, Heq.
Qed.

(** The same, seen from the state: a poll that brings back the displayed
    messages leaves the displayed array, identity included. *)
Lemma unchanged_poll_keeps_array (w : World) data :
  parsedMessages data = Normal (elems (messages (ui w))) ->
  messages (ui (loadMessages_resolved (Data data) w)) = messages (ui w).
Proof.
  intros Hp. unfold loadMessages_resolved. rewrite Hp. simpl.
  unfold keep_or_replace. simpl. now rewrite String.eqb_refl.
Qed.
End ThreadFacts.

Lemma null_payload_aborts_batch_witness :
  @parsedMessages sample_host broken_then_null = Throw TypeError.
Proof.
  exact (proj1 (proj2 (@null_payload_aborts_batch sample_host initial_world
                         eq_refl eq_refl))).
Defined.

Lemma decode_failure_never_aborts_fails : ~ @decode_failure_never_aborts sample_host.
Proof.
  intros Hclaim.
  destruct (Hclaim broken_then_null _ "{" (or_introl eq_refl) eq_refl eq_refl)
    as (ms & Hms & _).
  discriminate Hms.
Qed.

Lemma unchanged_thread_kept_witness :
  keep_or_replace (mkArray 7 thread_A) (mkArray 3 thread_A) = mkArray 3 thread_A
  /\ (keep_or_replace (mkArray 7 []) (mkArray 3 thread_A) <> mkArray 3 thread_A
      /\ @nil Msg.t <> thread_A).
Proof.
  split.
  - exact (proj1 (unchanged_thread_kept (mkArray 7 thread_A) (mkArray 3 thread_A))
                 eq_refl).
  - assert (Hrepl : keep_or_replace (mkArray 7 []) (mkArray 3 thread_A)
                    <> mkArray 3 thread_A)
      by (vm_compute; discriminate).
    split; [exact Hrepl|].
    exact (proj2 (unchanged_thread_kept (mkArray 7 []) (mkArray 3 thread_A)) Hrepl).
Defined.

Example stringify_thread_A :
  Json.stringify thread_A
  = ("[{" ++ Json.quote "id" ++ ":1," ++ Json.quote "type" ++ ":" ++ Json.quote "human"
     ++ "," ++ Json.quote "content" ++ ":" ++ Json.quote "Salut"
     ++ "," ++ Json.quote "timestamp" ++ ":" ++ Json.quote T1 ++ "}]")%string.
Proof. reflexivity. Qed.

(** ** Strings *)

Section StringFacts.
Import JsString.

Lemma prefix_spec t : forall s,
  String.prefix t s = true <-> exists after, s = (t ++ after)%string.
Proof.
  induction t as [|c t IH]; intros s.
  - split; [intros _; now exists s | intros _; now destruct s].
  - destruct s as [|c' s]; simpl.
    + split; [discriminate | intros [after Heq]; discriminate].
    + destruct (Ascii.ascii_dec c c') as [<-|Hne].
      * rewrite IH. split; intros [after Heq]; exists after.
        -- now rewrite Heq.
        -- now injection Heq.
      * split; [discriminate|].
        intros [after Heq]. injection Heq as Hc _. now elim Hne.
Qed.

(** [includes] is the substring test. *)
Lemma includes_spec t : forall s,
  includes s t = true
  <-> exists before after, s = (before ++ t ++ after)%string.
Proof.
  induction s as [|c s IH]; cbn [includes].
  - destruct (String.prefix t EmptyString) eqn:Hp.
    + split; [|reflexivity]. intros _.
      apply prefix_spec in Hp as [after Heq]. now exists EmptyString, after.
    + split; [discriminate|].
      intros (before & after & Heq).
      destruct before; simpl in Heq; [|discriminate].
      assert (String.prefix t EmptyString = true)
        by (apply prefix_spec; now exists after).
      congruence.
  - destruct (String.prefix t (String c s)) eqn:Hp.
    + split; [|reflexivity]. intros _.
      apply prefix_spec in Hp as [after Heq]. now exists EmptyString, after.
    + rewrite IH. split.
      * intros (before & after & ->). now exists (String c before), after.
      * intros (before & after & Heq).
        destruct before as [|c' before]; simpl in Heq.
        -- assert (String.prefix t (String c s) = true)
             by (apply prefix_spec; now exists after).
           congruence.
        -- injection Heq as _ ->. now exists before, after.
Qed.

Lemma trimStart_blank s : blank s = true -> trimStart s = EmptyString.
Proof.
  unfold blank. induction s as [|c s IH]; simpl; [reflexivity|].
  destruct (is_space c); simpl; [exact IH | discriminate].
Qed.

Lemma blank_trimStart s : blank (trimStart s) = true -> blank s = true.
Proof.
  unfold blank. induction s as [|c s IH]; simpl; [reflexivity|].
  destruct (is_space c) eqn:Hc; simpl; [exact IH|].
  now rewrite Hc.
Qed.

Lemma blank_trimEnd s : trimEnd s = EmptyString -> blank s = true.
Proof.
  unfold blank. induction s as [|c s IH]; simpl; [reflexivity|].
  destruct (trimEnd s); [|discriminate].
  destruct (is_space c); [intros _; now apply IH | discriminate].
Qed.

(** The drafts [handleRenameSubmit] turns away are the blank ones. *)
Lemma trim_empty_iff_blank s : trim s = EmptyString <-> blank s = true.
Proof.
  unfold trim. split.
  - intros Ht. now apply blank_trimStart, blank_trimEnd.
  - intros Hb. now rewrite trimStart_blank.
Qed.
End StringFacts.

Example trim_padded : JsString.trim "  Ventes " = "Ventes".
Proof. reflexivity. Qed.

Example lower_mixed : JsString.toLowerCase "Support ABC-12" = "support abc-12".
Proof. reflexivity. Qed.

Example includes_middle : JsString.includes "conversation abc12345..." "abc1" = true.
Proof. reflexivity. Qed.

(** ** The search filter *)

(** C9.  A conversation is listed exactly when it is in the index and the
    search term occurs, ignoring case, in its display name or in its session
    id; and typing a search term leaves the index as it was. *)
Theorem filter_by_search_term (st : State) :
  (forall conv,
      In conv (filteredConversations st)
      <-> In conv (conversations st)
          /\ (occurs_ignoring_case (searchTerm st) (Conv.display_name conv)
              \/ occurs_ignoring_case (searchTerm st) (Conv.session_id conv)))
  /\ (forall term, conversations (setSearchTerm term st) = conversations st).
Proof.
  split; [|reflexivity].
  intros conv. unfold filteredConversations, matches_search, occurs_ignoring_case.
  rewrite filter_In, orb_true_iff, !includes_spec. reflexivity.
Qed.

Example filter_two_sessions :
  filteredConversations (setSearchTerm "SUPP" (ui renaming_world))
  = [ Conv.mk "abc12345-6789" T3 "Support" ].
Proof. reflexivity. Qed.

(** ** The rename workflow *)

(** A submission during which nothing else happens, with a draft that is
    not blank, for the session [sid] being edited.  Until the backend
    answers, the update has been sent and the index and the selection are
    untouched.  On success every index entry
    of [sid] takes the trimmed draft as its name, the selected conversation
    too when it is [sid], and nothing is reported.  On failure the index and
    the selection stay as they were and the failure is reported.  Either way
    the edit is over and the draft is gone. *)
Theorem rename_applied_on_confirmation (w : World) (sid : string) :
  editingSession (ui w) = Some sid ->
  JsString.trim (newSessionName (ui w)) <> EmptyString ->
  let name := JsString.trim (newSessionName (ui w)) in
  let renamed conv :=
    if (Conv.session_id conv =? sid)%string
    then Conv.mk (Conv.session_id conv) (Conv.created_at conv) name
    else conv in
  (exists cl,
      snd (handleRenameSubmit_sent w) = Some cl
      /\ updates (fst (handleRenameSubmit_sent w)) = updates w ++ [(Some sid, name)]
      /\ conversations (ui (fst (handleRenameSubmit_sent w))) = conversations (ui w)
      /\ selectedConversation (ui (fst (handleRenameSubmit_sent w)))
         = selectedConversation (ui w))
  /\ (let w' := handleRenameSubmit (Data tt) w in
      conversations (ui w') = map renamed (conversations (ui w))
      /\ selectedConversation (ui w') = option_map renamed (selectedConversation (ui w))
      /\ alerts w' = alerts w
      /\ editingSession (ui w') = None
      /\ newSessionName (ui w') = EmptyString)
  /\ (forall error,
        let w' := handleRenameSubmit (Failed error) w in
        conversations (ui w') = conversations (ui w)
        /\ selectedConversation (ui w') = selectedConversation (ui w)
        /\ alerts w' = alerts w ++ [SaveFailed]
        /\ editingSession (ui w') = None
        /\ newSessionName (ui w') = EmptyString).
Proof.
  intros Hedit Hdraft name renamed.
  assert (Hsent : handleRenameSubmit_sent w
                  = ({| ui := ui w; next_oid := next_oid w; console := console w;
                        alerts := alerts w;
                        updates := updates w ++ [(Some sid, name)];
                        pending := pending w |},
                     Some (mkClosure (Some sid) (newSessionName (ui w))
                                     (selectedConversation (ui w))))).
  { unfold handleRenameSubmit_sent.
    destruct (String.eqb_spec (JsString.trim (newSessionName (ui w))) EmptyString)
      as [Hblank|_]; [contradiction|].
    now rewrite Hedit. }
  split; [|split].
  - rewrite Hsent. simpl. eexists. repeat split.
  - unfold handleRenameSubmit. rewrite Hsent. simpl.
    destruct (selectedConversation (ui w)) as [sel|] eqn:Hsel; simpl.
    + unfold renamed at 2.
      destruct (Conv.session_id sel =? sid)%string; simpl; rewrite ?Hsel;
        repeat split.
    + rewrite ?Hsel. repeat split.
  - intros error. unfold handleRenameSubmit. rewrite Hsent. simpl. repeat split.
Qed.

(** C7.  A submission with a blank draft sends no update, changes neither
    the index nor the selection, reports nothing, and ends the edit. *)
Theorem blank_rename_is_dropped (resp : Response unit) (w : World) :
  JsString.blank (newSessionName (ui w)) = true ->
  let w' := handleRenameSubmit resp w in
  updates w' = updates w
  /\ conversations (ui w') = conversations (ui w)
  /\ selectedConversation (ui w') = selectedConversation (ui w)
  /\ alerts w' = alerts w
  /\ editingSession (ui w') = None.
Proof.
  intros Hblank. apply trim_empty_iff_blank in Hblank.
  unfold handleRenameSubmit, handleRenameSubmit_sent.
  rewrite Hblank. simpl. repeat split.
Qed.

Lemma rename_applied_on_confirmation_witness :
  editingSession (ui renaming_world) = Some "abc12345-6789"
  /\ JsString.trim (newSessionName (ui renaming_world)) <> EmptyString
  /\ conversations (ui (handleRenameSubmit (Data tt) renaming_world))
     = [ Conv.mk "abc12345-6789" T3 "Ventes";
         Conv.mk "def67890-1234" T2 "Conversation def67890..." ]
  /\ conversations (ui (handleRenameSubmit (Failed "timeout") renaming_world))
     = conversations (ui renaming_world).
Proof.
  assert (Hdraft : JsString.trim (newSessionName (ui renaming_world)) <> EmptyString)
    by (vm_compute; discriminate).
  split; [reflexivity|]. split; [exact Hdraft|].
  destruct (rename_applied_on_confirmation renaming_world "abc12345-6789"
              eq_refl Hdraft) as (_ & Hok & Hko).
  split.
  - exact (proj1 Hok).
  - exact (proj1 (Hko "timeout")).
Defined.

Lemma blank_rename_is_dropped_witness :
  JsString.blank (newSessionName (ui blank_draft_world)) = true
  /\ updates (handleRenameSubmit (Data tt) blank_draft_world) = []
  /\ editingSession (ui (handleRenameSubmit (Data tt) blank_draft_world)) = None.
Proof.
  split; [reflexivity|].
  destruct (blank_rename_is_dropped (Data tt) blank_draft_world eq_refl)
    as (Hupd & _ & _ & _ & Hidle).
  split; [exact Hupd | exact Hidle].
Defined.

(* ================================================================== *)
(** * Further properties of the code *)

(** ** The index: order and choice of row *)

Section IndexOrder.
Context `{Builtins}.

Lemma has_mem (m : JsMap.t Conv.t) k :
  JsMap.has m k = existsb (String.eqb k) (JsMap.keys m).
Proof.
  unfold JsMap.has. induction m as [|[k' c] m IH]; simpl; [reflexivity|].
  rewrite (String.eqb_sym k k').
  destruct (k' =? k)%string; simpl; [reflexivity | exact IH].
Qed.

Lemma keys_group_row (m : JsMap.t Conv.t) row :
  JsMap.keys (group_row m row)
  = if existsb (String.eqb (Row.session_id row)) (JsMap.keys m)
    then JsMap.keys m
    else JsMap.keys m ++ [Row.session_id row].
Proof.
  rewrite <- has_mem. unfold group_row.
  destruct (JsMap.has m (Row.session_id row)) eqn:Hhas; simpl.
  - destruct (has_true_get _ _ Hhas) as [kept Hget]. rewrite Hget.
    destruct (date_gt _ _); [|reflexivity].
    now rewrite (keys_set_present _ _ _ _ Hget).
  - rewrite (set_absent _ _ _ (has_false_get _ _ Hhas)).
    unfold JsMap.keys. now rewrite map_app.
Qed.

Lemma filter_filter_and {A} (f g : A -> bool) l :
  filter f (filter g l) = filter (fun y => f y && g y) l.
Proof.
  induction l as [|x l IH]; simpl; [reflexivity|].
  destruct (g x) eqn:Hg; simpl.
  - destruct (f x); simpl; now rewrite IH.
  - rewrite andb_false_r. exact IH.
Qed.

Lemma keys_fold data : forall m : JsMap.t Conv.t,
  JsMap.keys (fold_left group_row data m)
  = JsMap.keys m
    ++ filter (fun y => negb (existsb (String.eqb y) (JsMap.keys m)))
              (first_seen (map Row.session_id data)).
Proof.
  induction data as [|row data IH]; intros m; simpl.
  - now rewrite app_nil_r.
  - rewrite IH, keys_group_row.
    set (k := Row.session_id row). set (ks := JsMap.keys m).
    set (L := first_seen (map Row.session_id data)).
    destruct (existsb (String.eqb k) ks) eqn:Hk; simpl.
    + f_equal. rewrite filter_filter_and. apply filter_ext_in. intros y _.
      destruct (existsb (String.eqb y) ks) eqn:Hy; simpl; [reflexivity|].
      destruct (String.eqb_spec y k) as [->|]; [congruence | reflexivity].
    + rewrite <- app_assoc. simpl. f_equal. f_equal.
      rewrite filter_filter_and. apply filter_ext. intros y.
      rewrite existsb_app. simpl. rewrite orb_false_r, negb_orb. reflexivity.
Qed.

(** X1.  The index lists the sessions in the order in which the rows first
    mention them, whatever the timestamps are. *)
Theorem index_in_order_of_first_row (data : list Row.t) :
  map Conv.session_id (newConversations data)
  = first_seen (map Row.session_id data).
Proof.
  rewrite index_sessions_keys. unfold group_rows. rewrite keys_fold. simpl.
  induction (first_seen (map Row.session_id data)) as [|x l IH]; simpl; congruence.
Qed.

Lemma date_gt_trans a b c :
  date_gt a b = true -> date_gt b c = true -> date_gt a c = true.
Proof.
  unfold date_gt.
  destruct (Date_value a), (Date_value b), (Date_value c); try discriminate.
  rewrite !Z.ltb_lt. lia.
Qed.

Lemma date_gt_after a b c :
  Date_value c <> None ->
  date_gt a b = true -> date_gt c b = false -> date_gt a c = true.
Proof.
  unfold date_gt.
  destruct (Date_value a), (Date_value b), (Date_value c);
    try discriminate; try (intros Hc; now elim Hc).
  rewrite !Z.ltb_lt, Z.ltb_ge. lia.
Qed.

(** The entry found under a key is the entry of a row placed as
    [first_latest] says, with respect to the rows consumed. *)
Lemma first_latest_step seen (m : JsMap.t Conv.t) row :
  Forall (fun r => Date_value (Row.created_at r) <> None) seen ->
  grouped seen m ->
  (forall k c, JsMap.get m k = Some c -> first_latest seen c) ->
  forall k c, JsMap.get (group_row m row) k = Some c ->
              first_latest (seen ++ [row]) c.
Proof.
  intros Hvalid [Hnd Hkeys Hkept] Hfirst k c. rewrite Forall_forall in Hvalid.
  assert (Hstay : forall c0, first_latest seen c0 ->
            (Row.session_id row = Conv.session_id c0 ->
             date_gt (Row.created_at row) (Conv.created_at c0) = false) ->
            first_latest (seen ++ [row]) c0).
  { intros c0 (pre & r & post & -> & Hs & -> & Hpre & Hpost) Hrow.
    exists pre, r, (post ++ [row]). repeat split; auto.
    - now rewrite <- app_assoc.
    - intros r' Hin Hs'. apply in_app_or in Hin as [Hin|[<-|[]]]; auto. }
  unfold group_row.
  destruct (JsMap.has m (Row.session_id row)) eqn:Hhas; simpl.
  - destruct (has_true_get _ _ Hhas) as [kept Hget]. rewrite Hget.
    destruct (Hkept _ _ Hget) as (rk & _ & Hsk & Hck & _).
    assert (Hkid : Conv.session_id kept = Row.session_id row)
      by (subst kept; exact Hsk).
    destruct (date_gt (Row.created_at row) (Conv.created_at kept)) eqn:Hgt.
    + rewrite get_set. destruct (String.eqb_spec (Row.session_id row) k) as [<-|Hne].
      * intros [= <-].
        destruct (Hfirst _ _ Hget) as (pre & r & post & -> & Hs & -> & Hpre & Hpost).
        exists (pre ++ r :: post), row, []. simpl in *. repeat split; auto.
        -- intros r' Hin Hs'. apply in_app_or in Hin as [Hin|[<-|Hin]].
           ++ apply date_gt_trans with (b := Row.created_at r); [exact Hgt|].
              apply Hpre; congruence.
           ++ exact Hgt.
           ++ apply date_gt_after with (b := Row.created_at r).
              ** apply Hvalid, in_or_app. right. now right.
              ** exact Hgt.
              ** apply Hpost; congruence.
        -- intros r' [].
      * intros Hg. apply Hstay; [now apply (Hfirst k)|].
        intros Hs'. exfalso. apply Hne.
        destruct (Hkept _ _ Hg) as (r' & _ & Hs'' & -> & _). simpl in Hs'. congruence.
    + intros Hg. apply Hstay; [now apply (Hfirst k)|].
      intros Hs'.
      assert (k = Row.session_id row) as ->.
      { destruct (Hkept _ _ Hg) as (r' & _ & Hs'' & -> & _). simpl in Hs'. congruence. }
      rewrite Hget in Hg. injection Hg as <-. exact Hgt.
  - pose proof (has_false_get _ _ Hhas) as Hget.
    rewrite get_set. destruct (String.eqb_spec (Row.session_id row) k) as [<-|Hne].
    + intros [= <-]. exists seen, row, []. simpl. repeat split; auto.
      * intros r' Hin Hs'. exfalso.
        apply (proj1 (get_none_keys _ _) Hget), Hkeys.
        rewrite <- Hs'. now apply in_map.
      * intros r' [].
    + intros Hg. apply Hstay; [now apply (Hfirst k)|].
      intros Hs'. exfalso. apply Hne.
      destruct (Hkept _ _ Hg) as (r' & _ & Hs'' & -> & _). simpl in Hs'. congruence.
Qed.

Lemma first_latest_fold rest : forall seen (m : JsMap.t Conv.t),
  Forall (fun r => Date_value (Row.created_at r) <> None) (seen ++ rest) ->
  grouped seen m ->
  (forall k c, JsMap.get m k = Some c -> first_latest seen c) ->
  forall k c, JsMap.get (fold_left group_row rest m) k = Some c ->
              first_latest (seen ++ rest) c.
Proof.
  induction rest as [|row rest IH]; intros seen m Hvalid Hg Hfirst; simpl.
  - rewrite app_nil_r. exact Hfirst.
  - replace (seen ++ row :: rest) with ((seen ++ [row]) ++ rest) in *
      by now rewrite <- app_assoc.
    apply IH.
    + exact Hvalid.
    + now apply grouped_step.
    + apply first_latest_step; auto.
      apply Forall_app in Hvalid as [Hvalid _].
      apply Forall_app in Hvalid as [Hvalid _]. exact Hvalid.
Qed.

(** X2.  With valid timestamps, the row behind each conversation of the
    index is the first row of its session, in the order delivered, to carry
    the session's latest timestamp: the session's rows before it are
    strictly earlier, those after it are not later. *)
Theorem index_keeps_first_of_latest (data : list Row.t) (c : Conv.t) :
  Forall (fun r => Date_value (Row.created_at r) <> None) data ->
  In c (newConversations data) ->
  first_latest data c.
Proof.
  intros Hvalid Hin.
  destruct (group_rows_grouped data) as [Hnd _ _].
  unfold newConversations, JsMap.values in Hin.
  apply in_map_iff in Hin as ([k c'] & Heq & Hin). simpl in Heq. subst c'.
  apply (first_latest_fold data [] JsMap.empty Hvalid grouped_empty) with (k := k).
  - discriminate.
  - now apply in_get.
Qed.
End IndexOrder.

Lemma index_keeps_first_of_latest_witness :
  Forall (fun r => sample_Date_value (Row.created_at r) <> None) tied_rows
  /\ In (Conv.mk "abc12345-6789" T2 "Premier") (@newConversations sample_host tied_rows)
  /\ @first_latest sample_host tied_rows (Conv.mk "abc12345-6789" T2 "Premier").
Proof.
  assert (Hvalid : Forall (fun r => sample_Date_value (Row.created_at r) <> None)
                          tied_rows)
    by (repeat constructor; simpl; discriminate).
  assert (Hin : In (Conv.mk "abc12345-6789" T2 "Premier")
                   (@newConversations sample_host tied_rows))
    by (left; reflexivity).
  split; [exact Hvalid|]. split; [exact Hin|].
  exact (@index_keeps_first_of_latest sample_host tied_rows _ Hvalid Hin).
Defined.

(** ** Rename and the next poll *)

Section RenameAndPoll.
Context `{Builtins}.
Variables (sid name : string).
Hypothesis name_nonempty : name <> EmptyString.

Let ren : Conv.t -> Conv.t := rename_entry (Some sid) name.
Let ren_map (m : JsMap.t Conv.t) : JsMap.t Conv.t :=
  map (fun kc => (fst kc, ren (snd kc))) m.

Lemma get_ren_map m k : JsMap.get (ren_map m) k = option_map ren (JsMap.get m k).
Proof.
  induction m as [|[k' c] m IH]; simpl; [reflexivity|].
  destruct (k' =? k)%string; [reflexivity | exact IH].
Qed.

Lemma set_ren_map m k c :
  JsMap.set (ren_map m) k (ren c) = ren_map (JsMap.set m k c).
Proof.
  induction m as [|[k' c'] m IH]; simpl; [reflexivity|].
  destruct (k' =? k)%string; simpl; [reflexivity | now rewrite IH].
Qed.

Lemma created_at_ren c : Conv.created_at (ren c) = Conv.created_at c.
Proof.
  unfold ren, rename_entry. now destruct (is_session _ _).
Qed.

Lemma entry_of_updated r :
  map entry_of (update_rows sid name [r]) = [ren (entry_of r)].
Proof.
  unfold update_rows, ren, rename_entry, entry_of. simpl.
  destruct (String.eqb_spec (Row.session_id r) sid) as [Hs|Hs]; simpl; [|reflexivity].
  destruct (String.eqb_spec name EmptyString); [contradiction | reflexivity].
Qed.

Lemma group_row_updated m r r' :
  update_rows sid name [r] = [r'] ->
  group_row (ren_map m) r' = ren_map (group_row m r).
Proof.
  intros Hr'.
  assert (Hs : Row.session_id r' = Row.session_id r).
  { unfold update_rows in Hr'. simpl in Hr'. injection Hr' as <-.
    now destruct (Row.session_id r =? sid)%string. }
  assert (Hc : Row.created_at r' = Row.created_at r).
  { unfold update_rows in Hr'. simpl in Hr'. injection Hr' as <-.
    now destruct (Row.session_id r =? sid)%string. }
  assert (He : entry_of r' = ren (entry_of r)).
  { pose proof (entry_of_updated r) as Hm.
    rewrite Hr' in Hm. simpl in Hm. now injection Hm. }
  unfold group_row, JsMap.has. rewrite Hs, Hc, He, get_ren_map.
  destruct (JsMap.get m (Row.session_id r)) as [kept|]; simpl.
  - rewrite created_at_ren.
    destruct (date_gt _ _); [apply set_ren_map | reflexivity].
  - apply set_ren_map.
Qed.

Lemma fold_updated rows : forall m,
  fold_left group_row (update_rows sid name rows) (ren_map m)
  = ren_map (fold_left group_row rows m).
Proof.
  induction rows as [|r rows IH]; intros m; simpl; [reflexivity|].
  rewrite <- IH. f_equal. now apply group_row_updated.
Qed.

(** X3.  Renaming a session to a non-empty name on every one of its rows and
    building the index again gives the index built before, renamed the way
    [handleRenameSubmit] renames it locally: the local update after a
    confirmed rename agrees with what the next poll computes. *)
Theorem rename_agrees_with_next_poll (rows : list Row.t) :
  newConversations (update_rows sid name rows)
  = map (rename_entry (Some sid) name) (newConversations rows).
Proof.
  unfold newConversations, group_rows, JsMap.values.
  change JsMap.empty with (ren_map JsMap.empty).
  rewrite fold_updated. unfold ren_map. rewrite !map_map. reflexivity.
Qed.
End RenameAndPoll.

Lemma rename_agrees_with_next_poll_witness :
  "Ventes" <> EmptyString
  /\ @newConversations sample_host (update_rows "abc12345-6789" "Ventes" two_sessions)
     = [ Conv.mk "abc12345-6789" T3 "Ventes";
         Conv.mk "def67890-1234" T2 "Conversation def67890..." ].
Proof.
  assert (Hname : "Ventes" <> EmptyString) by discriminate.
  split; [exact Hname|].
  exact (@rename_agrees_with_next_poll sample_host "abc12345-6789" "Ventes"
           Hname two_sessions).
Defined.

(** ** The thread loader: what a refresh does *)

Section ThreadRefresh.
Context `{Builtins}.

Lemma message_of_nullish row :
  parsedMessage row = JNull \/ parsedMessage row = JUndefined ->
  message_of_row row = Throw TypeError.
Proof.
  unfold message_of_row. intros [-> | ->]; reflexivity.
Qed.

Lemma parsedMessages_nullish data row :
  In row data ->
  parsedMessage row = JNull \/ parsedMessage row = JUndefined ->
  parsedMessages data = Throw TypeError.
Proof.
  unfold parsedMessages. intros Hin Hnull.
  induction data as [|r data IH]; simpl; [destruct Hin|].
  destruct (message_of_row r) as [m|e] eqn:Hr; simpl.
  - destruct Hin as [->|Hin].
    + rewrite (message_of_nullish _ Hnull) in Hr. discriminate.
    + now rewrite (IH Hin).
  - now destruct (message_of_row_throws _ _ Hr) as [-> _].
Qed.

(** X4.  A batch is abandoned exactly when one of its rows has a payload
    that is, or parses to, null or undefined; the exception is then a
    TypeError, and no other exception leaves the loop. *)
Theorem batch_abandoned_iff (data : list Row.t) :
  (parsedMessages data = Throw TypeError
   <-> exists row, In row data
                   /\ (parsedMessage row = JNull \/ parsedMessage row = JUndefined))
  /\ (forall e, parsedMessages data = Throw e -> e = TypeError).
Proof.
  split; [split|].
  - intros Ht. now destruct (parsedMessages_throws _ _ Ht) as [_ Hrow].
  - intros (row & Hin & Hnull). now apply parsedMessages_nullish with (row := row).
  - intros e Ht. now destruct (parsedMessages_throws _ _ Ht) as [He _].
Qed.

(** X5.  A refresh that fails, because the fetch failed or because the
    batch was abandoned, leaves the whole component state as it was (thread
    shown, selection, index, draft) and logs exactly one error. *)
Theorem failed_refresh_keeps_state (w : World) (resp : Response (list Row.t)) :
  ((exists error, resp = Failed error)
   \/ (exists data row, resp = Data data /\ In row data
                        /\ (parsedMessage row = JNull \/ parsedMessage row = JUndefined))) ->
  ui (loadMessages_resolved resp w) = ui w
  /\ next_oid (loadMessages_resolved resp w) = next_oid w
  /\ exists entry, console (loadMessages_resolved resp w) = console w ++ [entry].
Proof.
  intros [[error ->] | (data & row & -> & Hin & Hnull)]; simpl.
  - repeat split. eexists. reflexivity.
  - unfold loadMessages_resolved. rewrite (parsedMessages_nullish _ _ Hin Hnull).
    simpl. repeat split. eexists. reflexivity.
Qed.

(** X6.  When a batch loads, its messages are the rows' in the same order:
    as many, with the same ids and the same timestamps, position by
    position. *)
Theorem messages_follow_rows (data : list Row.t) (ms : list Msg.t) :
  parsedMessages data = Normal ms ->
  map Msg.id ms = map Row.id data
  /\ map Msg.timestamp ms = map Row.created_at data.
Proof.
  unfold parsedMessages. revert ms.
  induction data as [|row data IH]; simpl; intros ms.
  - intros [= <-]. split; reflexivity.
  - unfold message_of_row at 1.
    destruct (get_property (parsedMessage row) "type") as [ty|]; simpl; [|discriminate].
    destruct (get_property (parsedMessage row) "content") as [ct|]; simpl;
      [|discriminate].
    destruct (mapM message_of_row data) as [ms'|]; simpl; [|discriminate].
    intros [= <-]. destruct (IH ms' eq_refl) as [Hid Hts]. simpl.
    now rewrite Hid, Hts.
Qed.

(** X7.  A payload stored as JSON text that parses to anything but a string
    gives the same message as the parsed value stored natively. *)
Theorem text_and_native_payload_agree (r1 r2 : Row.t) (text : string) (v : JSValue) :
  Row.id r1 = Row.id r2 -> Row.created_at r1 = Row.created_at r2 ->
  Row.message r1 = JStr text -> Row.message r2 = v ->
  JSON_parse text = Some v -> (forall s, v <> JStr s) ->
  message_of_row r1 = message_of_row r2.
Proof.
  intros Hid Hts Hm1 Hm2 Hparse Hnot.
  unfold message_of_row, parsedMessage. rewrite Hm1, Hm2, Hparse, Hid, Hts.
  destruct v; try reflexivity. now elim (Hnot s).
Qed.

(** X8.  After a refresh that loads, the thread shown has the JSON
    rendering of the fetched messages, whether the array was replaced or
    kept. *)
Theorem shown_thread_matches_fetched (w : World) (data : list Row.t) (ms : list Msg.t) :
  parsedMessages data = Normal ms ->
  Json.stringify (elems (messages (ui (loadMessages_resolved (Data data) w))))
  = Json.stringify ms.
Proof.
  intros Hp. unfold loadMessages_resolved. rewrite Hp.
  unfold with_ui, setMessages, fresh_array, keep_or_replace.
  cbn [ui messages elems].
  destruct (String.eqb_spec (Json.stringify ms)
                            (Json.stringify (elems (messages (ui w))))) as [Heq|Hne];
    cbn [negb elems]; [symmetry; exact Heq | reflexivity].
Qed.
End ThreadRefresh.

Example mixed_rows_load :
  @parsedMessages sample_host mixed_rows
  = Normal [ Msg.mk (JNum "1") (JStr "human") (JStr "Salut") T1;
             Msg.mk (JNum "2") (JStr "unknown") (JStr "Message non parsable") T2 ].
Proof. reflexivity. Qed.

Lemma failed_refresh_keeps_state_witness :
  (exists data row, Data broken_then_null = Data data /\ In row data
                    /\ (@parsedMessage sample_host row = JNull
                        \/ @parsedMessage sample_host row = JUndefined))
  /\ ui (@loadMessages_resolved sample_host (Data broken_then_null) renaming_world)
     = ui renaming_world.
Proof.
  assert (Hbad : (exists error, Data broken_then_null = Failed error)
                 \/ (exists data row, Data broken_then_null = Data data /\ In row data
                        /\ (@parsedMessage sample_host row = JNull
                            \/ @parsedMessage sample_host row = JUndefined))).
  { right. exists broken_then_null, (sample_row "2" "abc12345-6789" T2 None (JStr "null")).
    repeat split; [right; now left | now left]. }
  split.
  - destruct Hbad as [[error Hno] | Hyes]; [discriminate Hno | exact Hyes].
  - exact (proj1 (@failed_refresh_keeps_state sample_host renaming_world _ Hbad)).
Defined.

Lemma messages_follow_rows_witness :
  @parsedMessages sample_host mixed_rows
  = Normal [ Msg.mk (JNum "1") (JStr "human") (JStr "Salut") T1;
             Msg.mk (JNum "2") (JStr "unknown") (JStr "Message non parsable") T2 ]
  /\ [JNum "1"; JNum "2"] = map Row.id mixed_rows
  /\ [T1; T2] = map Row.created_at mixed_rows.
Proof.
  split; [reflexivity|].
  exact (@messages_follow_rows sample_host mixed_rows _ eq_refl).
Defined.

Lemma text_and_native_payload_agree_witness :
  sample_JSON_parse "[]" = Some (JArr [])
  /\ @message_of_row sample_host (sample_row "1" "abc12345-6789" T1 None (JStr "[]"))
     = @message_of_row sample_host (sample_row "1" "abc12345-6789" T1 None (JArr [])).
Proof.
  split; [reflexivity|].
  apply (@text_and_native_payload_agree sample_host _ _ "[]" (JArr []));
    try reflexivity.
  intros s. discriminate.
Defined.

Lemma shown_thread_matches_fetched_witness :
  @parsedMessages sample_host rows_A = Normal thread_A
  /\ Json.stringify
       (elems (messages (ui (@loadMessages_resolved sample_host (Data rows_A)
                               initial_world))))
     = Json.stringify thread_A.
Proof.
  split; [reflexivity|].
  exact (@shown_thread_matches_fetched sample_host initial_world rows_A thread_A eq_refl).
Defined.

(** ** More on strings *)

Section StringMore.
Import JsString.

Lemma append_assoc_s (a b c : string) : ((a ++ b) ++ c = a ++ (b ++ c))%string.
Proof. induction a as [|x a IH]; simpl; [reflexivity | now rewrite IH]. Qed.

Lemma includes_empty s : includes s EmptyString = true.
Proof. destruct s; reflexivity. Qed.

Lemma trimStart_head s c rest : trimStart s = String c rest -> is_space c = false.
Proof.
  induction s as [|a s IH]; simpl; [discriminate|].
  destruct (is_space a) eqn:Ha; [exact IH|].
  intros [= <- _]. exact Ha.
Qed.

Lemma trimStart_fixed c rest :
  is_space c = false -> trimStart (String c rest) = String c rest.
Proof. intros Hc. simpl. now rewrite Hc. Qed.

Lemma trimEnd_head s c rest : trimEnd s = String c rest -> exists s', s = String c s'.
Proof.
  destruct s as [|a s]; simpl; [discriminate|].
  destruct (trimEnd s).
  - destruct (is_space a); [discriminate|]. intros [= <- _]. eauto.
  - intros [= <- _]. eauto.
Qed.

Lemma trimEnd_last s : forall front c,
  trimEnd s = (front ++ String c EmptyString)%string -> is_space c = false.
Proof.
  induction s as [|a s IH]; intros front c; simpl.
  - destruct front; discriminate.
  - destruct (trimEnd s) as [|b r] eqn:Hs.
    + destruct (is_space a) eqn:Ha; [destruct front; discriminate|].
      destruct front as [|x front]; simpl.
      * intros [= <-]. exact Ha.
      * intros [= _ Hrest]. destruct front; discriminate.
    + destruct front as [|x front]; simpl.
      * intros Heq. inversion Heq.
      * intros [= _ Hrest]. now apply (IH front c).
Qed.

Lemma trimEnd_idem s : trimEnd (trimEnd s) = trimEnd s.
Proof.
  induction s as [|a s IH]; simpl; [reflexivity|].
  destruct (trimEnd s) as [|b r] eqn:Hs.
  - destruct (is_space a) eqn:Ha; simpl; [reflexivity | now rewrite Ha].
  - change (trimEnd (String a (String b r))) with
      (match trimEnd (String b r) with
       | EmptyString => if is_space a then EmptyString else String a EmptyString
       | rest => String a rest
       end).
    now rewrite IH.
Qed.

(** What [trim] returns has no white space at either end, and trimming it
    again changes nothing. *)
Lemma trim_clean s : no_outer_space (trim s) /\ trim (trim s) = trim s.
Proof.
  unfold trim. destruct (trimStart s) as [|c r] eqn:Hstart.
  - simpl. split; [split|reflexivity].
    + discriminate.
    + intros front c. destruct front; discriminate.
  - pose proof (trimStart_head _ _ _ Hstart) as Hc.
    assert (Hhead : exists rest', trimEnd (String c r) = String c rest').
    { simpl. destruct (trimEnd r); [rewrite Hc|]; eauto. }
    destruct Hhead as [rest' Hend]. split; [split|].
    + rewrite Hend. intros c' rest [= <- _]. exact Hc.
    + apply trimEnd_last.
    + rewrite Hend, (trimStart_fixed _ _ Hc), <- Hend. apply trimEnd_idem.
Qed.
End StringMore.

(** ** The rename workflow: what is sent and what is kept *)

(** X9.  The handler either sends nothing, or sends one update, for the
    session being edited, whose name is not empty, has no white space at
    either end and is left unchanged by trimming. *)
Theorem sent_name_is_clean (w : World) :
  updates (fst (handleRenameSubmit_sent w)) = updates w
  \/ exists n,
       updates (fst (handleRenameSubmit_sent w))
       = updates w ++ [(editingSession (ui w), n)]
       /\ n <> EmptyString /\ no_outer_space n /\ JsString.trim n = n.
Proof.
  unfold handleRenameSubmit_sent.
  destruct (String.eqb_spec (JsString.trim (newSessionName (ui w))) EmptyString)
    as [Hblank|Hdraft]; simpl.
  - now left.
  - right. exists (JsString.trim (newSessionName (ui w))).
    destruct (trim_clean (newSessionName (ui w))) as [Hclean Hidem]. auto.
Qed.

Lemma rename_entry_session editing name conv :
  Conv.session_id (rename_entry editing name conv) = Conv.session_id conv.
Proof. unfold rename_entry. now destruct (is_session _ _). Qed.

Lemma rename_entry_created editing name conv :
  Conv.created_at (rename_entry editing name conv) = Conv.created_at conv.
Proof. unfold rename_entry. now destruct (is_session _ _). Qed.

(** X10.  Whatever the draft and the backend's answer, a submission leaves
    the index with the same sessions and timestamps in the same order, and
    the selection on the same session. *)
Theorem rename_keeps_index_shape (resp : Response unit) (w : World) :
  let w' := handleRenameSubmit resp w in
  map Conv.session_id (conversations (ui w')) = map Conv.session_id (conversations (ui w))
  /\ map Conv.created_at (conversations (ui w')) = map Conv.created_at (conversations (ui w))
  /\ option_map Conv.session_id (selectedConversation (ui w'))
     = option_map Conv.session_id (selectedConversation (ui w)).
Proof.
  unfold handleRenameSubmit, handleRenameSubmit_sent.
  destruct (JsString.trim (newSessionName (ui w)) =? EmptyString)%string; simpl.
  - repeat split.
  - destruct resp as [error|[]]; simpl; [repeat split|].
    assert (Hconv : forall l editing name,
              map Conv.session_id (map (rename_entry editing name) l)
              = map Conv.session_id l
              /\ map Conv.created_at (map (rename_entry editing name) l)
                 = map Conv.created_at l).
    { intros l editing name. rewrite !map_map. split; apply map_ext; intros c.
      - apply rename_entry_session.
      - apply rename_entry_created. }
    destruct (selectedConversation (ui w)) as [sel|] eqn:Hsel; simpl.
    + destruct (is_session (editingSession (ui w)) (Conv.session_id sel)); simpl;
        rewrite ?Hsel; simpl; repeat split; apply Hconv.
    + rewrite ?Hsel. repeat split; apply Hconv.
Qed.

Lemma submit_conversations (resp : Response unit) (w : World) :
  conversations (ui (handleRenameSubmit resp w)) = conversations (ui w)
  \/ (JsString.trim (newSessionName (ui w)) <> EmptyString
      /\ conversations (ui (handleRenameSubmit resp w))
         = map (rename_entry (editingSession (ui w))
                  (JsString.trim (newSessionName (ui w))))
               (conversations (ui w))).
Proof.
  unfold handleRenameSubmit, handleRenameSubmit_sent.
  destruct (String.eqb_spec (JsString.trim (newSessionName (ui w))) EmptyString)
    as [Hblank|Hdraft]; simpl; [now left|].
  destruct resp as [error|[]]; simpl; [now left|]. right. split; [exact Hdraft|].
  destruct (selectedConversation (ui w)) as [sel|]; simpl; [|reflexivity].
  now destruct (is_session _ _).
Qed.

(** X11.  A submission never introduces an empty name: if every
    conversation of the index has a non-empty name before, so it has
    after. *)
Theorem rename_keeps_names_nonempty (resp : Response unit) (w : World) :
  Forall (fun c => Conv.display_name c <> EmptyString) (conversations (ui w)) ->
  Forall (fun c => Conv.display_name c <> EmptyString)
         (conversations (ui (handleRenameSubmit resp w))).
Proof.
  intros Hnames. unfold handleRenameSubmit, handleRenameSubmit_sent.
  destruct (String.eqb_spec (JsString.trim (newSessionName (ui w))) EmptyString)
    as [Hblank|Hdraft]; simpl; [exact Hnames|].
  destruct resp as [error|[]]; simpl; [exact Hnames|].
  assert (Hren : Forall (fun c => Conv.display_name c <> EmptyString)
                   (map (rename_entry (editingSession (ui w))
                           (JsString.trim (newSessionName (ui w))))
                        (conversations (ui w)))).
  { rewrite Forall_forall in *. intros c Hin.
    apply in_map_iff in Hin as (c0 & <- & Hin0). unfold rename_entry.
    destruct (is_session _ _); simpl; [exact Hdraft | now apply Hnames]. }
  destruct (selectedConversation (ui w)) as [sel|]; simpl; [|exact Hren].
  destruct (is_session _ _); exact Hren.
Qed.

Lemma rename_keeps_names_nonempty_witness :
  Forall (fun c => Conv.display_name c <> EmptyString) (conversations (ui renaming_world))
  /\ Forall (fun c => Conv.display_name c <> EmptyString)
            (conversations (ui (handleRenameSubmit (Data tt) renaming_world))).
Proof.
  assert (Hnames : Forall (fun c => Conv.display_name c <> EmptyString)
                          (conversations (ui renaming_world)))
    by (repeat constructor; simpl; discriminate).
  split; [exact Hnames|].
  exact (rename_keeps_names_nonempty (Data tt) renaming_world Hnames).
Defined.

(** ** The search filter: what a term finds *)

Lemma filter_all {A} (f : A -> bool) (l : list A) :
  (forall x, In x l -> f x = true) -> filter f l = l.
Proof.
  induction l as [|x l IH]; simpl; intros Hall; [reflexivity|].
  rewrite (Hall x (or_introl eq_refl)). f_equal. apply IH.
  intros y Hy. apply Hall. now right.
Qed.

(** X12.  With an empty search term every conversation of the index is
    listed, in the index's order. *)
Theorem empty_search_lists_all (st : State) :
  filteredConversations (setSearchTerm EmptyString st) = conversations st.
Proof.
  unfold filteredConversations. simpl. apply filter_all.
  intros c _. unfold matches_search. simpl. now rewrite includes_empty.
Qed.

Lemma includes_refl s : JsString.includes s s = true.
Proof. apply includes_spec. exists EmptyString, EmptyString. simpl.
  induction s as [|x s IH]; simpl; [reflexivity | now rewrite <- IH]. Qed.

Lemma includes_trans a b c :
  JsString.includes a b = true -> JsString.includes b c = true ->
  JsString.includes a c = true.
Proof.
  rewrite !includes_spec. intros (p1 & q1 & ->) (p2 & q2 & ->).
  exists (p1 ++ p2)%string, (q2 ++ q1)%string.
  now rewrite !append_assoc_s.
Qed.

(** X13.  A term that lower-cases to the same string as a conversation's
    whole display name, or as its whole session id, lists that
    conversation: typing a name in full finds it, in whatever case. *)
Theorem whole_name_any_case_matches (term : string) (c : Conv.t) :
  JsString.toLowerCase term = JsString.toLowerCase (Conv.display_name c)
  \/ JsString.toLowerCase term = JsString.toLowerCase (Conv.session_id c) ->
  matches_search term c = true.
Proof.
  intros Hcase. unfold matches_search. apply orb_true_iff.
  destruct Hcase as [-> | ->]; [left|right]; apply includes_refl.
Qed.

(** X14.  Changing the search term to one whose lower-case form contains
    the lower-case form of the present term never brings a conversation
    back: whatever the new term lists, the present term lists too. *)
Theorem longer_term_narrows (st : State) (term : string) (c : Conv.t) :
  JsString.includes (JsString.toLowerCase term)
                    (JsString.toLowerCase (searchTerm st)) = true ->
  In c (filteredConversations (setSearchTerm term st)) ->
  In c (filteredConversations st).
Proof.
  intros Hterm. unfold filteredConversations. simpl. rewrite !filter_In.
  intros [Hin Hmatch]. split; [exact Hin|].
  unfold matches_search in *.
  apply orb_true_iff in Hmatch. apply orb_true_iff.
  destruct Hmatch as [Hm|Hm]; [left|right];
    exact (includes_trans _ _ _ Hm Hterm).
Qed.

Lemma whole_name_any_case_matches_witness :
  JsString.toLowerCase "SUPPORT" = JsString.toLowerCase "Support"
  /\ matches_search "SUPPORT" (Conv.mk "abc12345-6789" T3 "Support") = true.
Proof.
  split; [reflexivity|].
  apply (whole_name_any_case_matches "SUPPORT" (Conv.mk "abc12345-6789" T3 "Support")).
  left. reflexivity.
Defined.

Lemma longer_term_narrows_witness :
  JsString.includes (JsString.toLowerCase "SUPPO") (JsString.toLowerCase "upp") = true
  /\ In (Conv.mk "abc12345-6789" T3 "Support")
        (filteredConversations (setSearchTerm "upp" (ui renaming_world))).
Proof.
  split; [reflexivity|].
  apply (longer_term_narrows (setSearchTerm "upp" (ui renaming_world)) "SUPPO");
    [reflexivity | left; reflexivity].
Defined.

(** ** The thread events: what the component fetches and keeps *)

Section ThreadRuns.
Context `{Builtins}.

Lemma loadMessages_resolved_frame resp w :
  pending (loadMessages_resolved resp w) = pending w
  /\ selectedConversation (ui (loadMessages_resolved resp w))
     = selectedConversation (ui w).
Proof.
  unfold loadMessages_resolved. destruct resp as [error|data]; simpl; [auto|].
  destruct (parsedMessages data); simpl; auto.
Qed.

Lemma remove_first_incl sid l rest :
  remove_first sid l = Some rest -> forall x, In x rest -> In x l.
Proof.
  revert rest. induction l as [|y l IH]; simpl; intros rest; [discriminate|].
  destruct (y =? sid)%string.
  - intros [= <-] x Hx. now right.
  - destruct (remove_first sid l) as [rest'|]; [|discriminate].
    intros [= <-] x [<-|Hx]; [now left | right; now apply (IH rest')].
Qed.

Lemma covered_step known w ev w' :
  covered known w -> step w ev = Some w' -> covered (known ++ opened [ev]) w'.
Proof.
  intros [Hpend Hsel]. destruct ev as [conv| |sid resp]; simpl.
  - intros [= <-]. split; simpl.
    + intros s Hs. apply in_or_app. apply in_app_or in Hs as [Hs|[<-|[]]].
      * left. now apply Hpend.
      * right. now left.
    + intros c [= <-]. apply in_or_app. right. now left.
  - destruct (selectedConversation (ui w)) as [c|] eqn:Hc; [|discriminate].
    intros [= <-]. rewrite app_nil_r. split; simpl.
    + intros s Hs. apply in_app_or in Hs as [Hs|[<-|[]]]; [now apply Hpend|].
      now apply Hsel.
    + rewrite Hc. exact Hsel.
  - destruct (rows_of_session sid resp); [|discriminate].
    destruct (remove_first sid (pending w)) as [rest|] eqn:Hrest; [|discriminate].
    intros [= <-]. rewrite app_nil_r.
    destruct (loadMessages_resolved_frame resp
                {| ui := ui w; next_oid := next_oid w; console := console w;
                   alerts := alerts w; updates := updates w; pending := rest |})
      as [Hp Hs]. simpl in Hp, Hs.
    split.
    + rewrite Hp. intros s Hin. apply Hpend. now apply (remove_first_incl _ _ _ Hrest).
    + rewrite Hs. exact Hsel.
Qed.

Lemma opened_app evs1 evs2 : opened (evs1 ++ evs2) = opened evs1 ++ opened evs2.
Proof.
  induction evs1 as [|[conv| |sid resp] evs1 IH]; simpl; congruence.
Qed.

Lemma covered_run evs : forall known w w',
  covered known w -> run w evs = Some w' -> covered (known ++ opened evs) w'.
Proof.
  induction evs as [|ev evs IH]; intros known w w' Hc; cbn [run].
  - intros [= <-]. simpl. now rewrite app_nil_r.
  - destruct (step w ev) as [w1|] eqn:Hstep; [|discriminate].
    intros Hrun. change (ev :: evs) with ([ev] ++ evs).
    rewrite opened_app, app_assoc. apply (IH _ w1); [|exact Hrun].
    now apply (covered_step known w).
Qed.

(** X15.  The component only ever fetches threads the user has opened:
    after any run of events from the initial state, every fetch in flight
    and the selection are for a session of a clicked conversation. *)
Theorem fetches_only_opened (evs : list Event) (w : World) :
  run initial_world evs = Some w ->
  (forall sid, In sid (pending w) -> In sid (opened evs))
  /\ (forall c, selectedConversation (ui w) = Some c ->
                In (Conv.session_id c) (opened evs)).
Proof.
  intros Hrun.
  assert (Hinit : covered [] initial_world) by (split; [intros s [] | discriminate]).
  exact (covered_run evs [] initial_world w Hinit Hrun).
Qed.

Lemma selected_step w ev w' :
  step w ev = Some w' ->
  selectedConversation (ui w) <> None -> selectedConversation (ui w') <> None.
Proof.
  destruct ev as [conv| |sid resp]; simpl.
  - intros [= <-] _. discriminate.
  - destruct (selectedConversation (ui w)) as [c|] eqn:Hc; [|discriminate].
    intros [= <-] _. simpl. rewrite Hc. discriminate.
  - destruct (rows_of_session sid resp); [|discriminate].
    destruct (remove_first sid (pending w)) as [rest|]; [|discriminate].
    intros [= <-].
    destruct (loadMessages_resolved_frame resp
                {| ui := ui w; next_oid := next_oid w; console := console w;
                   alerts := alerts w; updates := updates w; pending := rest |})
      as [_ Hs]. simpl in Hs. now rewrite Hs.
Qed.

(** X16.  Once a conversation is selected the selection is never cleared:
    not by clicks, ticks or resolved fetches, not by a poll of the index,
    not by a rename, whatever its outcome. *)
Theorem selection_never_cleared (w : World) :
  selectedConversation (ui w) <> None ->
  (forall evs w', run w evs = Some w' -> selectedConversation (ui w') <> None)
  /\ (forall resp, selectedConversation (ui (loadConversations resp w)) <> None)
  /\ (forall resp, selectedConversation (ui (handleRenameSubmit resp w)) <> None).
Proof.
  intros Hsel. split; [|split].
  - intros evs. revert w Hsel.
    induction evs as [|ev evs IH]; intros w Hsel w'; simpl.
    + now intros [= <-].
    + destruct (step w ev) as [w1|] eqn:Hstep; [|discriminate].
      apply IH. now apply (selected_step w ev).
  - intros [error|data]; exact Hsel.
  - intros resp. unfold handleRenameSubmit, handleRenameSubmit_sent.
    destruct (JsString.trim (newSessionName (ui w)) =? EmptyString)%string; simpl;
      [exact Hsel|].
    destruct resp as [error|[]]; simpl; [exact Hsel|].
    destruct (selectedConversation (ui w)) as [sel|] eqn:Hs; [|now elim Hsel].
    simpl. destruct (is_session _ _); simpl; rewrite Hs; discriminate.
Qed.
End ThreadRuns.

Lemma fetches_only_opened_witness :
  @run sample_host initial_world [Click conversation_A; Click conversation_B]
  = Some (handleConversationClick conversation_B
            (handleConversationClick conversation_A initial_world))
  /\ forall sid,
       In sid (pending (handleConversationClick conversation_B
                          (handleConversationClick conversation_A initial_world))) ->
       In sid ["aaaa1111"; "bbbb2222"].
Proof.
  split; [reflexivity|].
  exact (proj1 (@fetches_only_opened sample_host
                  [Click conversation_A; Click conversation_B] _ eq_refl)).
Defined.

Lemma selection_never_cleared_witness :
  selectedConversation (ui renaming_world) <> None
  /\ selectedConversation
       (ui (handleRenameSubmit (Failed "timeout") renaming_world)) <> None.
Proof.
  assert (Hsel : selectedConversation (ui renaming_world) <> None) by discriminate.
  split; [exact Hsel|].
  exact (proj2 (proj2 (@selection_never_cleared sample_host renaming_world Hsel))
               (Failed "timeout")).
Defined.

(** ** The index through the life of the component *)

Section WholeComponent.
Context `{Builtins}.

Lemma newConversations_sound data : sound_index (newConversations data).
Proof.
  split.
  - rewrite index_sessions_keys. now destruct (group_rows_grouped data).
  - apply Forall_forall. intros c Hc.
    destruct (index_entry_kept _ _ Hc) as (r & _ & _ & -> & _). simpl.
    apply or_else_nonempty, default_name_nonempty.
Qed.

Lemma submit_sound resp w :
  sound_index (conversations (ui w)) ->
  sound_index (conversations (ui (handleRenameSubmit resp w))).
Proof.
  intros [Hnd Hnames].
  destruct (submit_conversations resp w) as [-> | [Hdraft ->]]; [now split|].
  split.
  - rewrite map_map.
    rewrite (map_ext _ Conv.session_id (fun c => rename_entry_session _ _ c)).
    exact Hnd.
  - rewrite Forall_forall in *. intros c Hin.
    apply in_map_iff in Hin as (c0 & <- & Hin0). unfold rename_entry.
    destruct (is_session _ _); simpl; [exact Hdraft | now apply Hnames].
Qed.

Lemma step_conversations w ev w' :
  step w ev = Some w' -> conversations (ui w') = conversations (ui w).
Proof.
  destruct ev as [conv| |sid resp]; simpl.
  - now intros [= <-].
  - destruct (selectedConversation (ui w)); [|discriminate]. now intros [= <-].
  - destruct (rows_of_session sid resp); [|discriminate].
    destruct (remove_first sid (pending w)) as [rest|]; [|discriminate].
    intros [= <-]. unfold loadMessages_resolved.
    destruct resp as [error|data]; simpl; [reflexivity|].
    now destruct (parsedMessages data).
Qed.

Lemma act_sound w a w' :
  sound_index (conversations (ui w)) -> act w a = Some w' ->
  sound_index (conversations (ui w')).
Proof.
  intros Hs. destruct a as [resp|ev|conv|text|resp| |term]; simpl.
  - intros [= <-]. destruct resp as [error|data]; simpl;
      [exact Hs | apply newConversations_sound].
  - intros Hstep. now rewrite (step_conversations _ _ _ Hstep).
  - now intros [= <-].
  - now intros [= <-].
  - intros [= <-]. now apply submit_sound.
  - now intros [= <-].
  - now intros [= <-].
Qed.

(** X17.  Whatever happens to the component from its initial state, the
    index on screen keeps pairwise distinct session ids, which the sidebar
    uses as list keys, and non-empty names; so does the filtered list. *)
Theorem index_always_sound (actions : list Action) (w : World) :
  perform initial_world actions = Some w ->
  sound_index (conversations (ui w))
  /\ sound_index (filteredConversations (ui w)).
Proof.
  assert (Hgen : forall acts w0 w1, sound_index (conversations (ui w0)) ->
                   perform w0 acts = Some w1 -> sound_index (conversations (ui w1))).
  { induction acts as [|a acts IH]; intros w0 w1 Hs; simpl.
    - now intros [= <-].
    - destruct (act w0 a) as [w2|] eqn:Hact; [|discriminate].
      apply IH. now apply (act_sound w0 a). }
  intros Hrun.
  assert (Hs : sound_index (conversations (ui w))).
  { apply (Hgen actions initial_world w); [|exact Hrun].
    split; simpl; constructor. }
  split; [exact Hs|].
  destruct Hs as [Hnd Hnames]. unfold filteredConversations. split.
  - clear Hnames. induction (conversations (ui w)) as [|c l IH]; simpl; [constructor|].
    inversion Hnd as [|? ? Hnotin Hnd']; subst.
    destruct (matches_search (searchTerm (ui w)) c); simpl; [|now apply IH].
    constructor; [|now apply IH].
    intros Hin. apply Hnotin. apply in_map_iff in Hin as (c' & Heq & Hin).
    apply filter_In in Hin as [Hin _]. rewrite <- Heq. now apply in_map.
  - rewrite Forall_forall in *. intros c Hin. apply filter_In in Hin as [Hin _].
    now apply Hnames.
Qed.
End WholeComponent.

Example a_session_ends :
  option_map (fun w => (conversations (ui w), filteredConversations (ui w),
                        updates w))
             (@perform sample_host initial_world a_session)
  = Some ([ Conv.mk "abc12345-6789" T3 "Ventes";
            Conv.mk "def67890-1234" T2 "Conversation def67890..." ],
          [ Conv.mk "abc12345-6789" T3 "Ventes" ],
          [ (Some "abc12345-6789", "Ventes") ]).
Proof. reflexivity. Qed.

Lemma index_always_sound_witness :
  exists w, @perform sample_host initial_world a_session = Some w
            /\ sound_index (conversations (ui w)).
Proof.
  eexists. split; [reflexivity|].
  exact (proj1 (@index_always_sound sample_host a_session _ eq_refl)).
Defined.

(** ** The rename workflow when something happens during the await *)

Section RenameInterleaved.
Context `{Builtins}.

(** What the second half of the handler does to the index and to the user
    on any world it resumes in: on success the entries of the session
    edited take the trimmed draft, on failure the index and the selection
    are left alone and the failure is reported; either way the edit is over
    and the draft is gone. *)
Lemma rename_resolved_anywhere (cl : RenameClosure) (during : World) :
  (let w' := handleRenameSubmit_resolved cl (Data tt) during in
   conversations (ui w')
   = map (rename_entry (cl_editingSession cl) (JsString.trim (cl_newSessionName cl)))
         (conversations (ui during))
   /\ alerts w' = alerts during
   /\ editingSession (ui w') = None /\ newSessionName (ui w') = EmptyString)
  /\ (forall error,
        let w' := handleRenameSubmit_resolved cl (Failed error) during in
        conversations (ui w') = conversations (ui during)
        /\ selectedConversation (ui w') = selectedConversation (ui during)
        /\ alerts w' = alerts during ++ [SaveFailed]
        /\ editingSession (ui w') = None /\ newSessionName (ui w') = EmptyString).
Proof.
  split.
  - unfold handleRenameSubmit_resolved. simpl.
    destruct (cl_selectedConversation cl) as [sel|]; simpl; [|repeat split].
    destruct (is_session _ _); simpl; repeat split.
  - intros error. unfold handleRenameSubmit_resolved. simpl. repeat split.
Qed.

(** C6.  Two submissions that succeed while the user clicks a conversation
    before the backend answers.  In [rename_then_click] the conversation
    renamed was open at submission and the other one is open at
    confirmation: the index is renamed as it should, and the header of the
    other conversation takes the new name.  In [rename_then_open] it is the
    reverse: the conversation renamed is open at confirmation, the index
    says Ventes and the header still says Support.  The handler tests the
    selection it read at submission and updates the one current at
    confirmation. *)
Theorem click_during_rename_misnames :
  (exists w,
      rename_then_click = Some w
      /\ conversations (ui w)
         = [ Conv.mk "abc12345-6789" T3 "Ventes"; other_conversation ]
      /\ selectedConversation (ui w) = Some (Conv.mk "def67890-1234" T2 "Ventes"))
  /\ (exists w,
        rename_then_open = Some w
        /\ conversations (ui w)
           = [ Conv.mk "abc12345-6789" T3 "Ventes"; other_conversation ]
        /\ selectedConversation (ui w) = Some support_conversation).
Proof.
  split; eexists; repeat split.
Qed.

Lemma selection_follows_rename_fails : ~ selection_follows_rename.
Proof.
  intros Hclaim.
  pose proof (Hclaim renaming_from_list _ _ _ "abc12345-6789"
                [RenameCancelled; Thread (Click support_conversation)]
                support_conversation eq_refl eq_refl eq_refl eq_refl eq_refl)
    as Hsel.
  simpl in Hsel. discriminate Hsel.
Qed.
End RenameInterleaved.
